(** * one.h : at most one live instance per key

    A shallow embedding of [src/one.h] (namespace [one]): the static
    registry [oneMethod<T, Args...>] (a vector of key tuples and a
    [std::timed_mutex]), the indirect handle [one<T, Args...>] and the
    inline handle [oneR<T, Args...>].

    Conventions of the embedding.
    - A key tuple [std::tuple<Args...>] is a value of a type [K] with
      decidable equality.  [std::forward<Argss...>(condition...)] hands
      the same rvalue on each time, and every [std::make_tuple] of it
      move-constructs from the key object: afterwards the object holds
      [moved_from] of what it held.
    - [std::chrono::milliseconds] is a signed 64-bit count, a [Z] here;
      [5000min] is converted to milliseconds as the implicit conversion
      does.  [try_lock_for] converts its timeout to the nanoseconds of
      the clock; a timeout whose nanoseconds do not fit 64 bits
      overflows, which is undefined.
    - The other threads and the spurious failures the standard allows
      [try_lock_for] are in the state of the mutex ([Held d]); a mutex
      that is [Free] is obtained.
    - Member functions run in a state-and-exception monad whose state is
      the pair of the static members (plus the free store of [T]
      instances) and the handle object [*this].
    - Every call on the registry, the mutex and the free store is
      recorded, in program order, in a log kept next to the state; the
      log is only read by the statements about the order of steps.
    - The forwarding constructor and [init] that take no timeout
      delegate with [5000min], a [std::chrono::minutes]; for that
      argument overload resolution selects the same forwarding template
      again, so no call of them is well-formed and they are no part of
      the overload sets below.
    - [~oneR] calls [erase(data)] with an lvalue, which reaches the
      variadic [erase] and compares the entries with a tuple holding
      the tuple; this is well-formed only for key types that supply
      that comparison, which is taken to hold exactly between equal
      keys ([erase_wrapped]).
    - Behaviour the C++ standard leaves undefined (deleting through a
      pointer that was never assigned, relocking a mutex the caller
      owns, unlocking one it does not own) is the outcome [Undefined]. *)

From stdpp Require Import base option list gmap strings.
From Stdlib Require Import ZArith Lia.

Local Open Scope Z_scope.

(** ** Exceptions and outcomes *)

(** [using exception_ = std::runtime_error]; [T_exception] stands for
    whatever the value type's own constructor throws. *)
Inductive exn : Type :=
  | exception_ (what : string)
  | T_exception.

#[global] Instance exn_eq_dec : EqDecision exn.
Proof. solve_decision. Defined.

(** The two errors of the claim protocol, by the message they carry. *)
Definition DuplicateKey : exn := exception_ "There is the same".
Definition LockTimeout : exn := exception_ "Get lock the time out".

Inductive outcome (A : Type) : Type :=
  | Ret (a : A)
  | Throw (e : exn)
  | Undefined.
Arguments Ret {A} a.
Arguments Throw {A} e.
Arguments Undefined {A}.

(** ** The monad of member functions *)

Definition M (S A : Type) : Type := S -> outcome A * S.

Definition ret {S A} (a : A) : M S A := fun s => (Ret a, s).

Definition bind {S A B} (m : M S A) (k : A -> M S B) : M S B :=
  fun s =>
    match m s with
    | (Ret a, s') => k a s'
    | (Throw e, s') => (Throw e, s')
    | (Undefined, s') => (Undefined, s')
    end.

Definition throw {S A} (e : exn) : M S A := fun s => (Throw e, s).

Definition undefined {S A} : M S A := fun s => (Undefined, s).

(** [try { body } catch (...) { handler }]: the handler runs in the state
    the body had reached when it threw. *)
Definition try_catch {S A} (body handler : M S A) : M S A :=
  fun s =>
    match body s with
    | (Throw _, s') => handler s'
    | r => r
    end.

Definition gets {S A} (f : S -> A) : M S A := fun s => (Ret (f s), s).
Definition modify {S} (f : S -> S) : M S unit := fun s => (Ret tt, f s).

(** Run a computation on the first component of a pair state. *)
Definition on_fst {S H A} (m : M S A) : M (S * H) A :=
  fun sh =>
    match m (fst sh) with
    | (r, s') => (r, (s', snd sh))
    end.

Declare Scope one_scope.
Delimit Scope one_scope with one.
Notation "x <- m ;; k" := (bind m (fun x => k))
  (at level 100, m at next level, right associativity) : one_scope.
Notation "m ;;; k" := (bind m (fun _ => k))
  (at level 100, right associativity) : one_scope.
Local Open Scope one_scope.

(** ** [std::timed_mutex], seen from the calling thread

    [Free]: nobody owns it.  [Owned]: the calling thread owns it.
    [Held d]: the mutex cannot be got for another [d] milliseconds,
    because another thread owns it that long or because
    [try_lock_for] fails spuriously that long.  What the other threads
    do, and whether [try_lock_for] fails spuriously, is thus part of
    the state a call starts from; on a [Free] mutex, and so right
    after the calling thread's own [unlock], it does not. *)
Inductive timed_mutex : Type :=
  | Free
  | Owned
  | Held (d : Z).

#[global] Instance timed_mutex_eq_dec : EqDecision timed_mutex.
Proof. solve_decision. Defined.

Definition addr : Type := nat.

(** [std::chrono::milliseconds] and the literal suffix [min]. *)
Definition milliseconds : Type := Z.
Definition min_ (n : Z) : milliseconds := n * 60 * 1000.

(** How the handles brace- or value-initialise a [T]; [K] is the key
    tuple, [CArgs] the constructor-argument packs a caller may forward. *)
Inductive T_init (K CArgs : Type) : Type :=
  | T_default                      (* [new T()], [T obj;] *)
  | T_from_condition (k : K)       (* [new T{condition...}] *)
  | T_from_args (a : CArgs).       (* [new T{args...}] *)
Arguments T_default {K CArgs}.
Arguments T_from_condition {K CArgs} k.
Arguments T_from_args {K CArgs} a.

(** Closes a goal about a concrete run by evaluation. *)
Ltac run_it := vm_compute; reflexivity.

(** ** A client of the header

    The value type and key of the end-to-end scenario: connections keyed
    by a name and a number.  The constructor from arguments throws on a
    negative port.  The concrete runs at the end of the file use it. *)
Module Client.

Record Connection : Type := { host : string; port : Z }.

Definition Key : Type := (string * Z)%type.
Definition CtorArgs : Type := (string * Z)%type.

(** [std::tuple<std::string, int>{}] *)
Definition default_key : Key := (""%string, 0).

Definition Connection_ctor (i : T_init Key CtorArgs) : option Connection :=
  match i with
  | T_default => Some {| host := ""; port := 0 |}
  | T_from_condition k => Some {| host := fst k; port := snd k |}
  | T_from_args a =>
      if decide (0 <= snd a) then Some {| host := fst a; port := snd a |} else None
  end.

Definition db : Key := ("db"%string, 1).

(** Moving from the key empties its string and leaves its number. *)
Definition moved_key (k : Key) : Key := (""%string, snd k).

(** The key [("db", 1)] after a move. *)
Definition db_moved : Key := (""%string, 1).

(** A second client keys its connections by a number alone, which a
    move leaves as it is. *)
Definition moved_number (k : Z) : Z := k.

Definition Connection_by_number (i : T_init Z CtorArgs) : option Connection :=
  match i with
  | T_default => Some {| host := ""; port := 0 |}
  | T_from_condition k => Some {| host := ""; port := k |}
  | T_from_args a =>
      if decide (0 <= snd a) then Some {| host := fst a; port := snd a |} else None
  end.

End Client.

(** * The header *)

Section OneH.

(** [K] is [std::tuple<Args...>], [T] the value type, [CArgs] the
    constructor-argument packs a caller may forward. *)
Context {K : Type} `{EqDecision K}.
Context {T CArgs : Type}.

(** The value-initialised tuple a default-constructed handle holds. *)
Variable default_data : K.

(** The value type's constructors; [None] when the constructor throws. *)
Variable T_ctor : T_init K CArgs -> option T.

(** What a key object holds after a tuple was move-constructed from it:
    the same key for trivially copyable elements (integers, pointers),
    for a [std::string] element the empty string in the usual standard
    libraries. *)
Variable moved_from : K -> K.

(** *** Static members of [oneMethod<T, Args...>] and the free store *)

Inductive event : Type :=
  | EvVerified (k : K)
  | EvTryLockFor (t : milliseconds)
  | EvLock
  | EvUnlock
  | EvAdd (k : K)
  | EvErase (k : K)
  | EvNew (p : addr)
  | EvDelete (p : addr).

Record store : Type := Store {
  om_list : list K;            (* [oneMethod::list] *)
  om_mtx : timed_mutex;        (* [oneMethod::mtx] *)
  heap : gmap addr T;          (* live [T] instances *)
  trace : list event           (* calls made so far, oldest first *)
}.

Definition with_list (f : list K -> list K) (s : store) : store :=
  Store (f (om_list s)) (om_mtx s) (heap s) (trace s).
Definition with_mtx (m : timed_mutex) (s : store) : store :=
  Store (om_list s) m (heap s) (trace s).
Definition with_heap (f : gmap addr T -> gmap addr T) (s : store) : store :=
  Store (om_list s) (om_mtx s) (f (heap s)) (trace s).
Definition log (e : event) (s : store) : store :=
  Store (om_list s) (om_mtx s) (heap s) (trace s ++ [e]).

(** *** [oneMethod]: add, verified, erase *)

(** [std::find(list.begin(), list.end(), t)]: index of the first element
    equal to [t], or the length (the end iterator). *)
Fixpoint std_find (t : K) (l : list K) : nat :=
  match l with
  | [] => O
  | x :: l' => if decide (x = t) then O else S (std_find t l')
  end.

(** [std::remove(list.begin(), list.end(), t)] compacts the elements
    that differ from [t] to the front and returns the new end; the
    elements kept, in [begin, new_end), are these. *)
Fixpoint std_remove (t : K) (l : list K) : list K :=
  match l with
  | [] => []
  | x :: l' => if decide (x = t) then std_remove t l' else x :: std_remove t l'
  end.

(** [list.push_back(t)] *)
Definition add (t : K) : M store unit :=
  modify (fun s => log (EvAdd t) (with_list (fun l => l ++ [t]) s)).

(** [std::find(...) != list.end()] *)
Definition verified (t : K) : M store bool :=
  fun s =>
    (Ret (negb (Nat.eqb (std_find t (om_list s)) (length (om_list s)))),
     log (EvVerified t) s).

(** [list.erase(std::remove(list.begin(), list.end(), t), list.end())] *)
Definition erase (t : K) : M store unit :=
  modify (fun s => log (EvErase t) (with_list (std_remove t) s)).

(** [erase(data)] with an lvalue tuple, as [~oneR] calls it: the variadic
    overload, which removes the entries that compare equal to
    [std::make_tuple(data)]; that comparison, which the key type has to
    supply, holds exactly between equal keys. *)
Definition erase_wrapped (t : K) : M store unit := erase t.

(** *** [std::timed_mutex] operations *)

(** Whether the nanoseconds of [t] milliseconds fit a signed 64-bit
    count. *)
Definition representable (t : milliseconds) : bool :=
  bool_decide (- 2 ^ 63 <= t * 1000000 <= 2 ^ 63 - 1).

(** [mtx.try_lock_for(t)]: a free mutex is taken at once; one that
    cannot be got now ([Held d]: held elsewhere, or failing spuriously,
    for [d] more milliseconds) is taken if that ends within [t],
    otherwise the call gives up after [t].  A timeout that is not
    [representable] overflows. *)
Definition try_lock_for (t : milliseconds) : M store bool :=
  fun s =>
    if representable t then
      match om_mtx s with
      | Free => (Ret true, log (EvTryLockFor t) (with_mtx Owned s))
      | Held d =>
          if decide (d <= t)
          then (Ret true, log (EvTryLockFor t) (with_mtx Owned s))
          else (Ret false, log (EvTryLockFor t) (with_mtx (Held (d - Z.max 0 t)) s))
      | Owned => (Undefined, s)
      end
    else (Undefined, s).

(** [mtx.lock()]: blocks, without limit, until the mutex can be taken. *)
Definition lock : M store unit :=
  fun s =>
    match om_mtx s with
    | Free | Held _ => (Ret tt, log EvLock (with_mtx Owned s))
    | Owned => (Undefined, s)
    end.

(** [mtx.unlock()] *)
Definition unlock : M store unit :=
  fun s =>
    match om_mtx s with
    | Owned => (Ret tt, log EvUnlock (with_mtx Free s))
    | _ => (Undefined, s)
    end.

(** *** The free store of [T] instances *)

(** [new T{...}] / [new T()] *)
Definition new_T (i : T_init K CArgs) : M store addr :=
  fun s =>
    match T_ctor i with
    | None => (Throw T_exception, s)
    | Some v =>
        let p := fresh (dom (heap s)) in
        (Ret p, log (EvNew p) (with_heap (insert p v) s))
    end.

(** [delete ptr] *)
Definition delete_T (p : addr) : M store unit :=
  fun s =>
    match heap s !! p with
    | None => (Undefined, s)
    | Some _ => (Ret tt, log (EvDelete p) (with_heap (delete p) s))
    end.

(** [T{...}] as a temporary (no allocation). *)
Definition make_T (i : T_init K CArgs) : M store T :=
  fun s =>
    match T_ctor i with
    | None => (Throw T_exception, s)
    | Some v => (Ret v, s)
    end.

(** ** The indirect handle [one<T, Args...>] *)

(** [struct retain : Base] owns [ptr]; [struct package : Base] refers to
    a caller-owned [obj]. *)
Inductive Base : Type :=
  | retain (ptr : addr)
  | package (obj : addr).

(** The member [Base *base]; it has no initialiser, so it is
    [indeterminate] until a constructor or [init] assigns it. *)
Inductive Base_ptr : Type :=
  | indeterminate
  | points_to (b : Base).

Record one : Type := One {
  one_data : K;
  one_base : Base_ptr
}.

(** [base->get()] *)
Definition Base_get (b : Base) : addr :=
  match b with
  | retain ptr => ptr
  | package obj => obj
  end.

Definition one_set_data (d : K) : M (store * one) unit :=
  modify (fun sh => (fst sh, One d (one_base (snd sh)))).

Definition one_set_base (b : Base) : M (store * one) unit :=
  modify (fun sh => (fst sh, One (one_data (snd sh)) (points_to b))).

(** [one::entrust].  [verified] builds its tuple from the key and leaves
    the key object moved from; [add] builds its tuple from that object
    and moves from it again; [data] is assigned a tuple built from what
    is left then. *)
Definition one_entrust (t : milliseconds) (condition : K) : M (store * one) unit :=
  same <- on_fst (verified condition) ;;
  if same : bool then throw DuplicateKey
  else
    got <- on_fst (try_lock_for t) ;;
    if negb got then throw LockTimeout
    else
      on_fst (add (moved_from condition)) ;;;
      one_set_data (moved_from (moved_from condition)) ;;;
      on_fst unlock.

(** [one() noexcept {}] *)
Definition one_ctor_default : M (store * one) unit := ret tt.

(** [one(Args... condition, std::chrono::milliseconds t, Argss &&...constructArgs)] *)
Definition one_ctor_args (condition : K) (t : milliseconds) (constructArgs : CArgs)
  : M (store * one) unit :=
  one_entrust t condition ;;;
  ptr <- on_fst (new_T (T_from_args constructArgs)) ;;
  one_set_base (retain ptr).

(** [one(Args... condition, std::chrono::milliseconds t = 5000min)]:
    [new retain(condition...)] copies the key object as [entrust] left
    it, moved from three times. *)
Definition one_ctor_condition (condition : K) (t : option milliseconds)
  : M (store * one) unit :=
  one_entrust (default (min_ 5000) t) condition ;;;
  ptr <- on_fst (new_T (T_from_condition
                          (moved_from (moved_from (moved_from condition))))) ;;
  one_set_base (retain ptr).

(** [one(const Opt::notUseConditionConstructor &o, Args... condition,
        std::chrono::milliseconds t = 5000min)] *)
Definition one_ctor_notUse (condition : K) (t : option milliseconds)
  : M (store * one) unit :=
  one_entrust (default (min_ 5000) t) condition ;;;
  ptr <- on_fst (new_T T_default) ;;
  one_set_base (retain ptr).

(** [one(T &d, Args... condition, std::chrono::milliseconds t = 5000min)] *)
Definition one_ctor_package (d : addr) (condition : K) (t : option milliseconds)
  : M (store * one) unit :=
  one_entrust (default (min_ 5000) t) condition ;;;
  one_set_base (package d).

(** [bool init(Args... condition, std::chrono::milliseconds t,
               Argss &&...constructArgs) noexcept] *)
Definition one_init_args (condition : K) (t : milliseconds) (constructArgs : CArgs)
  : M (store * one) bool :=
  try_catch
    (one_entrust t condition ;;;
     ptr <- on_fst (new_T (T_from_args constructArgs)) ;;
     one_set_base (retain ptr) ;;;
     ret true)
    (ret false).

(** [bool init(T &d, Args... condition,
               std::chrono::milliseconds t = 5000min) noexcept] *)
Definition one_init_package (d : addr) (condition : K) (t : option milliseconds)
  : M (store * one) bool :=
  try_catch
    (one_entrust (default (min_ 5000) t) condition ;;;
     one_set_base (package d) ;;;
     ret true)
    (ret false).

(** [bool init(const Opt::notUseConditionConstructor &o, Args... condition,
               std::chrono::milliseconds t = 5000min) noexcept] *)
Definition one_init_notUse (condition : K) (t : option milliseconds)
  : M (store * one) bool :=
  try_catch
    (one_entrust (default (min_ 5000) t) condition ;;;
     ptr <- on_fst (new_T T_default) ;;
     one_set_base (retain ptr) ;;;
     ret true)
    (ret false).

(** [delete base]: the virtual destructor of [retain] deletes [ptr],
    the one of [package] leaves [obj] alone. *)
Definition delete_base : M (store * one) unit :=
  this <- gets snd ;;
  match one_base this with
  | indeterminate => undefined
  | points_to (retain ptr) => on_fst (delete_T ptr)
  | points_to (package _) => ret tt
  end.

(** [~one() noexcept] *)
Definition one_dtor : M (store * one) unit :=
  on_fst lock ;;;
  this <- gets snd ;;
  on_fst (erase (one_data this)) ;;;
  delete_base ;;;
  on_fst unlock.

(** ** The inline handle [oneR<T, Args...>] *)

Record oneR : Type := OneR {
  oneR_obj : T;
  oneR_data : K
}.

Definition oneR_set_data (d : K) : M (store * oneR) unit :=
  modify (fun sh => (fst sh, OneR (oneR_obj (snd sh)) d)).

Definition oneR_set_obj (v : T) : M (store * oneR) unit :=
  modify (fun sh => (fst sh, OneR v (oneR_data (snd sh)))).

(** [oneR::entrust], with the same three uses of the key object. *)
Definition oneR_entrust (t : milliseconds) (args : K) : M (store * oneR) unit :=
  same <- on_fst (verified args) ;;
  if same : bool then throw DuplicateKey
  else
    got <- on_fst (try_lock_for t) ;;
    if negb got then throw LockTimeout
    else
      on_fst (add (moved_from args)) ;;;
      oneR_set_data (moved_from (moved_from args)) ;;;
      on_fst unlock.

(** [oneR() noexcept {}] *)
Definition oneR_ctor_default : M (store * oneR) unit := ret tt.

(** [oneR(std::chrono::milliseconds t, Args... condition, Argss &&...args)] *)
Definition oneR_ctor_args (t : milliseconds) (condition : K) (args : CArgs)
  : M (store * oneR) unit :=
  oneR_entrust t condition ;;;
  v <- on_fst (make_T (T_from_args args)) ;;
  oneR_set_obj v.

(** [oneR(const Opt::notUseConditionConstructor &o, Args... condition,
         std::chrono::milliseconds t = std::chrono::milliseconds(5000U))] *)
Definition oneR_ctor_notUse (condition : K) (t : option milliseconds)
  : M (store * oneR) unit :=
  oneR_entrust (default 5000 t) condition.

(** [bool init(const Opt::notUseConditionConstructor &o, Args... condition,
               std::chrono::milliseconds t = std::chrono::milliseconds(5000U))] *)
Definition oneR_init_notUse (condition : K) (t : option milliseconds)
  : M (store * oneR) bool :=
  try_catch
    (oneR_entrust (default 5000 t) condition ;;;
     ret true)
    (ret false).

(** [bool init(std::chrono::milliseconds t, Args... condition,
               Argss &&...args) noexcept] *)
Definition oneR_init_args (t : milliseconds) (condition : K) (args : CArgs)
  : M (store * oneR) bool :=
  try_catch
    (oneR_entrust t condition ;;;
     v <- on_fst (make_T (T_from_args args)) ;;
     oneR_set_obj v ;;;
     ret true)
    (ret false).

(** [~oneR()]: [lock(); erase(data); unlock();].  [data] is an lvalue, so
    the call cannot bind to [erase(std::tuple<Args...> &&)] and goes to
    the variadic [erase], modelled by [erase_wrapped].  The destructor
    can be instantiated only for a key type that supplies the
    comparison of an entry with [std::make_tuple(data)]; for other key
    types no [oneR] object can be declared at all. *)
Definition oneR_dtor : M (store * oneR) unit :=
  on_fst lock ;;;
  this <- gets snd ;;
  on_fst (erase_wrapped (oneR_data this)) ;;;
  on_fst unlock.

(** ** Objects: construction and destruction

    A constructor body runs on an object whose members have just been
    default-initialised; the object exists only if the body returns.
    When the body throws, no object exists and its destructor never
    runs, but the static members keep what the body did to them. *)

Definition one_members : one := One default_data indeterminate.

Definition construct_one (ctor : M (store * one) unit) (s : store)
  : outcome one * store :=
  match ctor (s, one_members) with
  | (Ret _, (s', this)) => (Ret this, s')
  | (Throw e, (s', _)) => (Throw e, s')
  | (Undefined, (s', _)) => (Undefined, s')
  end.

(** The member [T obj] is default-constructed before the body runs. *)
Definition construct_oneR (ctor : M (store * oneR) unit) (s : store)
  : outcome oneR * store :=
  match T_ctor T_default with
  | None => (Throw T_exception, s)
  | Some v =>
      match ctor (s, OneR v default_data) with
      | (Ret _, (s', this)) => (Ret this, s')
      | (Throw e, (s', _)) => (Throw e, s')
      | (Undefined, (s', _)) => (Undefined, s')
      end
  end.

(** Destroying the object [this]. *)
Definition destroy_one (this : one) (s : store) : outcome unit * store :=
  match one_dtor (s, this) with
  | (r, (s', _)) => (r, s')
  end.

Definition destroy_oneR (this : oneR) (s : store) : outcome unit * store :=
  match oneR_dtor (s, this) with
  | (r, (s', _)) => (r, s')
  end.

(** ** The overload sets

    One descriptor per call a client can write; [t = None] is a call
    that leaves the defaulted timeout argument out. *)

Inductive one_ctor_call : Type :=
  | OneArgs (condition : K) (t : milliseconds) (constructArgs : CArgs)
  | OneCondition (condition : K) (t : option milliseconds)
  | OneNotUse (condition : K) (t : option milliseconds)
  | OnePackage (d : addr) (condition : K) (t : option milliseconds).

Definition one_ctor (c : one_ctor_call) : M (store * one) unit :=
  match c with
  | OneArgs k t a => one_ctor_args k t a
  | OneCondition k t => one_ctor_condition k t
  | OneNotUse k t => one_ctor_notUse k t
  | OnePackage d k t => one_ctor_package d k t
  end.

Inductive one_init_call : Type :=
  | InitArgs (condition : K) (t : milliseconds) (constructArgs : CArgs)
  | InitPackage (d : addr) (condition : K) (t : option milliseconds)
  | InitNotUse (condition : K) (t : option milliseconds).

Definition one_init (c : one_init_call) : M (store * one) bool :=
  match c with
  | InitArgs k t a => one_init_args k t a
  | InitPackage d k t => one_init_package d k t
  | InitNotUse k t => one_init_notUse k t
  end.

Inductive oneR_ctor_call : Type :=
  | RArgs (t : milliseconds) (condition : K) (args : CArgs)
  | RNotUse (condition : K) (t : option milliseconds).

Definition oneR_ctor (c : oneR_ctor_call) : M (store * oneR) unit :=
  match c with
  | RArgs t k a => oneR_ctor_args t k a
  | RNotUse k t => oneR_ctor_notUse k t
  end.

Inductive oneR_init_call : Type :=
  | RInitNotUse (condition : K) (t : option milliseconds)
  | RInitArgs (t : milliseconds) (condition : K) (args : CArgs).

Definition oneR_init (c : oneR_init_call) : M (store * oneR) bool :=
  match c with
  | RInitNotUse k t => oneR_init_notUse k t
  | RInitArgs t k a => oneR_init_args t k a
  end.

(** The key a call claims. *)
Definition one_ctor_key (c : one_ctor_call) : K :=
  match c with
  | OneArgs k _ _ | OneCondition k _ | OneNotUse k _ | OnePackage _ k _ => k
  end.

Definition one_init_key (c : one_init_call) : K :=
  match c with
  | InitArgs k _ _ | InitPackage _ k _ | InitNotUse k _ => k
  end.

Definition oneR_ctor_key (c : oneR_ctor_call) : K :=
  match c with RArgs _ k _ | RNotUse k _ => k end.

Definition oneR_init_key (c : oneR_init_call) : K :=
  match c with RInitNotUse k _ | RInitArgs _ k _ => k end.

(** The timeout that reaches [entrust]. *)
Definition one_ctor_timeout (c : one_ctor_call) : milliseconds :=
  match c with
  | OneArgs _ t _ => t
  | OneCondition _ t | OneNotUse _ t | OnePackage _ _ t => default (min_ 5000) t
  end.

Definition one_init_timeout (c : one_init_call) : milliseconds :=
  match c with
  | InitArgs _ t _ => t
  | InitPackage _ _ t | InitNotUse _ t => default (min_ 5000) t
  end.

Definition oneR_ctor_timeout (c : oneR_ctor_call) : milliseconds :=
  match c with
  | RArgs t _ _ => t
  | RNotUse _ t => default 5000 t
  end.

Definition oneR_init_timeout (c : oneR_init_call) : milliseconds :=
  match c with
  | RInitArgs t _ _ => t
  | RInitNotUse _ t => default 5000 t
  end.

(** The calls that leave the timeout to its default argument. *)
Definition one_ctor_omits_timeout (c : one_ctor_call) : bool :=
  match c with
  | OneCondition _ None | OneNotUse _ None | OnePackage _ _ None => true
  | _ => false
  end.

Definition one_init_omits_timeout (c : one_init_call) : bool :=
  match c with
  | InitPackage _ _ None | InitNotUse _ None => true
  | _ => false
  end.

Definition oneR_ctor_omits_timeout (c : oneR_ctor_call) : bool :=
  match c with RNotUse _ None => true | _ => false end.

Definition oneR_init_omits_timeout (c : oneR_init_call) : bool :=
  match c with RInitNotUse _ None => true | _ => false end.

(** What a call does once its claim went through. *)
Definition one_ctor_bind (c : one_ctor_call) : M (store * one) unit :=
  match c with
  | OneArgs _ _ a =>
      ptr <- on_fst (new_T (T_from_args a)) ;; one_set_base (retain ptr)
  | OneCondition k _ =>
      ptr <- on_fst (new_T (T_from_condition
                              (moved_from (moved_from (moved_from k))))) ;;
      one_set_base (retain ptr)
  | OneNotUse _ _ =>
      ptr <- on_fst (new_T T_default) ;; one_set_base (retain ptr)
  | OnePackage d _ _ => one_set_base (package d)
  end.

Definition one_init_bind (c : one_init_call) : M (store * one) bool :=
  match c with
  | InitArgs _ _ a =>
      ptr <- on_fst (new_T (T_from_args a)) ;; one_set_base (retain ptr) ;;; ret true
  | InitPackage d _ _ => one_set_base (package d) ;;; ret true
  | InitNotUse _ _ =>
      ptr <- on_fst (new_T T_default) ;; one_set_base (retain ptr) ;;; ret true
  end.

Definition oneR_ctor_bind (c : oneR_ctor_call) : M (store * oneR) unit :=
  match c with
  | RArgs _ _ a => v <- on_fst (make_T (T_from_args a)) ;; oneR_set_obj v
  | RNotUse _ _ => ret tt
  end.

Definition oneR_init_bind (c : oneR_init_call) : M (store * oneR) bool :=
  match c with
  | RInitArgs _ _ a =>
      v <- on_fst (make_T (T_from_args a)) ;; oneR_set_obj v ;;; ret true
  | RInitNotUse _ _ => ret true
  end.

(** ** Stores and step lists the statements name *)

(** The store after a claim of [k] with timeout [t] went through. *)
Definition claimed (t : milliseconds) (k : K) (s : store) : store :=
  Store (om_list s ++ [moved_from k]) Free (heap s)
        (trace s ++ [EvVerified k; EvTryLockFor t; EvAdd (moved_from k); EvUnlock]).

(** The store after the wait for the mutex timed out. *)
Definition timed_out (t : milliseconds) (k : K) (s : store) : store :=
  Store (om_list s)
        (match om_mtx s with
         | Held d => Held (d - Z.max 0 t)
         | m => m
         end)
        (heap s)
        (trace s ++ [EvVerified k; EvTryLockFor t]).

(** What [try_lock_for t] answers for a mutex in state [m]; nothing
    where the call is undefined. *)
Definition acquired (t : milliseconds) (m : timed_mutex) : option bool :=
  if representable t then
    match m with
    | Free => Some true
    | Held d => Some (bool_decide (d <= t))
    | Owned => None
    end
  else None.

(** Whether [try_lock_for t] gets a mutex in state [m]. *)
Definition lock_within (t : milliseconds) (m : timed_mutex) : bool :=
  representable t &&
  match m with
  | Free => true
  | Held d => bool_decide (d <= t)
  | Owned => false
  end.

(** Removal of the first matching entry only, as the specification
    words [remove(key)]; it is compared with [erase] below. *)
Fixpoint spec_remove_first (t : K) (l : list K) : list K :=
  match l with
  | [] => []
  | x :: l' => if decide (x = t) then l' else x :: spec_remove_first t l'
  end.

(** The store once the destructor has locked and erased [d]. *)
Definition erased (d : K) (s : store) : store :=
  Store (std_remove d (om_list s)) Owned (heap s) (trace s ++ [EvLock; EvErase d]).

(** The calls of [~one] in the order the specification lists them:
    lock, erase, unlock and then, for an owning handle, the deletion
    of the instance.  It is compared with the log of [destroy_one]. *)
Definition spec_dtor_steps (this : one) : list event :=
  [EvLock; EvErase (one_data this); EvUnlock] ++
  match one_base this with
  | points_to (retain p) => [EvDelete p]
  | _ => []
  end.

Definition finish_one (r : outcome unit * (store * one)) : outcome one * store :=
  match r with
  | (Ret _, (s', this)) => (Ret this, s')
  | (Throw e, (s', _)) => (Throw e, s')
  | (Undefined, (s', _)) => (Undefined, s')
  end.

Definition finish_oneR (r : outcome unit * (store * oneR)) : outcome oneR * store :=
  match r with
  | (Ret _, (s', this)) => (Ret this, s')
  | (Throw e, (s', _)) => (Throw e, s')
  | (Undefined, (s', _)) => (Undefined, s')
  end.

(** ** Sequences of operations *)

(** The operations a client can perform on handles of the pairing.  An
    [init] or a destruction names the handle object it acts on by its
    current members. *)
Inductive action : Type :=
  | NewOne (c : one_ctor_call)
  | DefaultOne
  | InitOne (this : one) (c : one_init_call)
  | DeleteOne (this : one)
  | NewOneR (c : oneR_ctor_call)
  | DefaultOneR
  | InitOneR (this : oneR) (c : oneR_init_call)
  | DeleteOneR (this : oneR).

(** The static members and the free store after an operation, whatever
    its outcome. *)
Definition step (a : action) (s : store) : store :=
  match a with
  | NewOne c => snd (construct_one (one_ctor c) s)
  | DefaultOne => snd (construct_one one_ctor_default s)
  | InitOne this c => fst (snd (one_init c (s, this)))
  | DeleteOne this => snd (destroy_one this s)
  | NewOneR c => snd (construct_oneR (oneR_ctor c) s)
  | DefaultOneR => snd (construct_oneR oneR_ctor_default s)
  | InitOneR this c => fst (snd (oneR_init c (s, this)))
  | DeleteOneR this => snd (destroy_oneR this s)
  end.

(** Operations performed one after the other, none interleaved. *)
Definition run (l : list action) (s : store) : store :=
  fold_left (fun s a => step a s) l s.

(** The static members at program start: an empty vector, a free mutex. *)
Definition initial : store := Store [] Free ∅ [].

(** How one operation can change the vector. *)
Definition list_step (l l' : list K) : Prop :=
  l' = l \/ (exists k, (k ∉ l) /\ l' = l ++ [k]) \/ (exists d, l' = std_remove d l).

(** The [catch (...)] of [init]: anything thrown becomes [false]. *)
Definition caught {H : Type} (r : outcome bool * (store * H)) : outcome bool * (store * H) :=
  match r with
  | (Throw _, sh) => (Ret false, sh)
  | _ => r
  end.

(** ** Access to the instance *)

(** [get()], [operator T *()] and [operator T &()] all go through
    [base->get()]: an owning holder gives its [ptr], a borrowing one the
    address of the caller's [obj]. *)
Definition one_get (this : one) : outcome addr :=
  match one_base this with
  | indeterminate => Undefined
  | points_to b => Ret (Base_get b)
  end.

(** The [T] a call constructs after its claim, if it constructs one. *)
Definition one_ctor_alloc (c : one_ctor_call) : option (T_init K CArgs) :=
  match c with
  | OneArgs _ _ a => Some (T_from_args a)
  | OneCondition k _ =>
      Some (T_from_condition (moved_from (moved_from (moved_from k))))
  | OneNotUse _ _ => Some T_default
  | OnePackage _ _ _ => None
  end.

Definition one_init_alloc (c : one_init_call) : option (T_init K CArgs) :=
  match c with
  | InitArgs _ _ a => Some (T_from_args a)
  | InitNotUse _ _ => Some T_default
  | InitPackage _ _ _ => None
  end.

Definition oneR_ctor_alloc (c : oneR_ctor_call) : option (T_init K CArgs) :=
  match c with
  | RArgs _ _ a => Some (T_from_args a)
  | RNotUse _ _ => None
  end.

Definition oneR_init_alloc (c : oneR_init_call) : option (T_init K CArgs) :=
  match c with
  | RInitArgs _ _ a => Some (T_from_args a)
  | RInitNotUse _ _ => None
  end.

(** Whether the constructor of [T] a call runs, if any, throws. *)
Definition T_throws (i : option (T_init K CArgs)) : bool :=
  match i with
  | Some i => bool_decide (T_ctor i = None)
  | None => false
  end.

(** The entry an operation can add to the vector (what is left of its
    key after [verified]) or erase from it (the handle's [data]). *)
Definition action_entry (a : action) : option K :=
  match a with
  | NewOne c => Some (moved_from (one_ctor_key c))
  | InitOne _ c => Some (moved_from (one_init_key c))
  | DeleteOne this => Some (one_data this)
  | NewOneR c => Some (moved_from (oneR_ctor_key c))
  | InitOneR _ c => Some (moved_from (oneR_init_key c))
  | DeleteOneR this => Some (oneR_data this)
  | DefaultOne | DefaultOneR => None
  end.

(** ** Programs that destroy only what they constructed

    The live handles of both kinds next to the static members.  A use
    is a construction with a key, whose handle becomes live when the
    constructor returns, or the destruction of the live handle at a
    position. *)

Inductive handle : Type :=
  | HOne (h : one)
  | HOneR (r : oneR).

Definition handle_key (h : handle) : K :=
  match h with
  | HOne h => one_data h
  | HOneR r => oneR_data r
  end.

Inductive use : Type :=
  | UseNewOne (c : one_ctor_call)
  | UseNewOneR (c : oneR_ctor_call)
  | UseDelete (i : nat).

Definition use_step (u : use) (p : store * list handle) : store * list handle :=
  match u with
  | UseNewOne c =>
      match construct_one (one_ctor c) (fst p) with
      | (Ret h, s') => (s', snd p ++ [HOne h])
      | (_, s') => (s', snd p)
      end
  | UseNewOneR c =>
      match construct_oneR (oneR_ctor c) (fst p) with
      | (Ret r, s') => (s', snd p ++ [HOneR r])
      | (_, s') => (s', snd p)
      end
  | UseDelete i =>
      match snd p !! i with
      | None => p
      | Some (HOne h) => (snd (destroy_one h (fst p)), delete i (snd p))
      | Some (HOneR r) => (snd (destroy_oneR r (fst p)), delete i (snd p))
      end
  end.

Definition use_run (l : list use) (p : store * list handle) : store * list handle :=
  fold_left (fun p u => use_step u p) l p.

(** The live handles hold pairwise different keys, each in the vector. *)
Definition live_keys_claimed (p : store * list handle) : Prop :=
  NoDup (handle_key <$> snd p)
  /\ forall h, h ∈ snd p -> handle_key h ∈ om_list (fst p).

(** The instance a live handle owns on the free store, if it owns one. *)
Definition owned_ptr (h : handle) : option addr :=
  match h with
  | HOne h =>
      match one_base h with
      | points_to (retain p) => Some p
      | _ => None
      end
  | HOneR _ => None
  end.

(** The mutex is free, every live indirect handle is bound, and the live
    owning handles own pairwise different, allocated instances. *)
Definition live_instances_allocated (p : store * list handle) : Prop :=
  om_mtx (fst p) = Free
  /\ NoDup (omap owned_ptr (snd p))
  /\ (forall h, HOne h ∈ snd p -> one_base h <> indeterminate)
  /\ (forall q, q ∈ omap owned_ptr (snd p) -> is_Some (heap (fst p) !! q)).

(** * Facts *)

(** ** What the registry primitives compute *)

Lemma std_find_le (t : K) (l : list K) : (std_find t l <= length l)%nat.
Proof.
  induction l as [|x l IH]; simpl; [lia|].
  destruct (decide (x = t)); lia.
Qed.

Lemma std_find_end (t : K) (l : list K) :
  std_find t l = length l <-> t ∉ l.
Proof.
  induction l as [|x l IH]; simpl.
  - split; [intros _; apply not_elem_of_nil | reflexivity].
  - destruct (decide (x = t)) as [->|Hne].
    + split; [discriminate | intros Hn; exfalso; apply Hn; left].
    + rewrite not_elem_of_cons. split.
      * intros Heq. split; [congruence | apply IH; lia].
      * intros [_ Hn]. f_equal. now apply IH.
Qed.

(** [verified] answers membership in the vector. *)
Lemma verified_run (t : K) (s : store) :
  verified t s = (Ret (bool_decide (t ∈ om_list s)), log (EvVerified t) s).
Proof.
  unfold verified. f_equal. f_equal.
  destruct (decide (t ∈ om_list s)) as [Hin|Hnin].
  - rewrite bool_decide_eq_true_2 by assumption.
    apply negb_true_iff, Nat.eqb_neq. intros Heq.
    now apply std_find_end in Heq.
  - rewrite bool_decide_eq_false_2 by assumption.
    apply negb_false_iff, Nat.eqb_eq. now apply std_find_end.
Qed.

(** The erase-remove idiom keeps exactly the entries that differ from [t]. *)
Lemma std_remove_filter (t : K) (l : list K) :
  std_remove t l = filter (fun x => x <> t) l.
Proof.
  induction l as [|x l IH]; simpl; [reflexivity|].
  destruct (decide (x = t)) as [->|Hne].
  - rewrite filter_cons_False by (intros Hn; now apply Hn). exact IH.
  - rewrite filter_cons_True by assumption. now rewrite IH.
Qed.

Lemma std_remove_not_elem (t : K) (l : list K) : t ∉ std_remove t l.
Proof.
  rewrite std_remove_filter, list_elem_of_filter. intros [Hne _]. now apply Hne.
Qed.

Lemma std_remove_elem (t x : K) (l : list K) :
  x ∈ std_remove t l <-> x <> t /\ x ∈ l.
Proof. now rewrite std_remove_filter, list_elem_of_filter. Qed.

Lemma std_remove_id (t : K) (l : list K) : t ∉ l -> std_remove t l = l.
Proof.
  induction l as [|x l IH]; simpl; [reflexivity|].
  rewrite not_elem_of_cons. intros [Hne Hn].
  destruct (decide (x = t)); [congruence|]. now rewrite IH.
Qed.

Lemma std_remove_app (t : K) (l1 l2 : list K) :
  std_remove t (l1 ++ l2) = std_remove t l1 ++ std_remove t l2.
Proof.
  induction l1 as [|x l1 IH]; simpl; [reflexivity|].
  destruct (decide (x = t)); simpl; now rewrite IH.
Qed.

Lemma std_remove_NoDup (t : K) (l : list K) :
  NoDup l -> NoDup (std_remove t l).
Proof. rewrite std_remove_filter. apply NoDup_filter. Qed.

(** ** The claim protocol, run *)

Lemma acquired_lock_within (t : milliseconds) (m : timed_mutex) :
  acquired t m = Some true <-> lock_within t m = true.
Proof.
  unfold acquired, lock_within. destruct (representable t); simpl; [|easy].
  destruct m as [| |d]; simpl; try easy.
  destruct (bool_decide (d <= t)); easy.
Qed.

Lemma one_entrust_run (t : milliseconds) (k : K) (s : store) (this : one) :
  one_entrust t k (s, this) =
    if decide (k ∈ om_list s)
    then (Throw DuplicateKey, (log (EvVerified k) s, this))
    else match acquired t (om_mtx s) with
         | Some true =>
             (Ret tt, (claimed t k s,
                       One (moved_from (moved_from k)) (one_base this)))
         | Some false => (Throw LockTimeout, (timed_out t k s, this))
         | None => (Undefined, (log (EvVerified k) s, this))
         end.
Proof.
  unfold one_entrust, bind, on_fst. cbn [fst snd]. rewrite verified_run.
  destruct (decide (k ∈ om_list s)) as [Hin|Hnin].
  - now rewrite bool_decide_eq_true_2.
  - rewrite bool_decide_eq_false_2 by assumption.
    unfold try_lock_for, acquired. cbn [fst snd log om_mtx].
    destruct (representable t); [|reflexivity].
    destruct (om_mtx s) as [| |d] eqn:Hm; simpl; try reflexivity.
    + unfold claimed, log, with_mtx, with_list. simpl.
      now rewrite <- !app_assoc.
    + destruct (decide (d <= t)) as [Hd|Hd].
      * rewrite bool_decide_eq_true_2 by assumption. simpl.
        unfold claimed, log, with_mtx, with_list. simpl.
        now rewrite <- !app_assoc.
      * rewrite bool_decide_eq_false_2 by assumption. simpl.
        unfold timed_out, log, with_mtx. simpl. rewrite Hm.
        now rewrite <- !app_assoc.
Qed.

Lemma oneR_entrust_run (t : milliseconds) (k : K) (s : store) (this : oneR) :
  oneR_entrust t k (s, this) =
    if decide (k ∈ om_list s)
    then (Throw DuplicateKey, (log (EvVerified k) s, this))
    else match acquired t (om_mtx s) with
         | Some true =>
             (Ret tt, (claimed t k s,
                       OneR (oneR_obj this) (moved_from (moved_from k))))
         | Some false => (Throw LockTimeout, (timed_out t k s, this))
         | None => (Undefined, (log (EvVerified k) s, this))
         end.
Proof.
  unfold oneR_entrust, bind, on_fst. cbn [fst snd]. rewrite verified_run.
  destruct (decide (k ∈ om_list s)) as [Hin|Hnin].
  - now rewrite bool_decide_eq_true_2.
  - rewrite bool_decide_eq_false_2 by assumption.
    unfold try_lock_for, acquired. cbn [fst snd log om_mtx].
    destruct (representable t); [|reflexivity].
    destruct (om_mtx s) as [| |d] eqn:Hm; simpl; try reflexivity.
    + unfold claimed, log, with_mtx, with_list. simpl.
      now rewrite <- !app_assoc.
    + destruct (decide (d <= t)) as [Hd|Hd].
      * rewrite bool_decide_eq_true_2 by assumption. simpl.
        unfold claimed, log, with_mtx, with_list. simpl.
        now rewrite <- !app_assoc.
      * rewrite bool_decide_eq_false_2 by assumption. simpl.
        unfold timed_out, log, with_mtx. simpl. rewrite Hm.
        now rewrite <- !app_assoc.
Qed.

(** ** The steps of the claim protocol *)

(** [entrust], of either handle kind, first looks the key up; when it is
    there it throws DuplicateKey having touched neither the mutex nor the
    vector.  Otherwise it calls [try_lock_for] with the caller's timeout;
    when that answers [false] it throws LockTimeout and the vector is
    unchanged.  Otherwise it appends what the key object holds after the
    look-up, the moved-from key, stores what is left after that in
    [data], and unlocks.  The log shows these calls in this order. *)
Theorem entrust_protocol (t : milliseconds) (k : K) (s : store)
    (h : one) (r : oneR) :
  (k ∈ om_list s ->
     let s' := Store (om_list s) (om_mtx s) (heap s) (trace s ++ [EvVerified k]) in
     one_entrust t k (s, h) = (Throw DuplicateKey, (s', h)) /\
     oneR_entrust t k (s, r) = (Throw DuplicateKey, (s', r)))
  /\ ((k ∉ om_list s) -> acquired t (om_mtx s) = Some false ->
     exists d, om_mtx s = Held d /\ t < d /\
     let s' := Store (om_list s) (Held (d - Z.max 0 t)) (heap s)
                     (trace s ++ [EvVerified k; EvTryLockFor t]) in
     one_entrust t k (s, h) = (Throw LockTimeout, (s', h)) /\
     oneR_entrust t k (s, r) = (Throw LockTimeout, (s', r)))
  /\ ((k ∉ om_list s) -> acquired t (om_mtx s) = Some true ->
     let s' := Store (om_list s ++ [moved_from k]) Free (heap s)
                     (trace s ++ [EvVerified k; EvTryLockFor t;
                                  EvAdd (moved_from k); EvUnlock]) in
     one_entrust t k (s, h) = (Ret tt, (s', One (moved_from (moved_from k)) (one_base h))) /\
     oneR_entrust t k (s, r) = (Ret tt, (s', OneR (oneR_obj r) (moved_from (moved_from k))))).
Proof.
  split; [|split].
  - intros Hin. simpl.
    rewrite one_entrust_run, oneR_entrust_run, !decide_True by assumption.
    now split.
  - intros Hnin Hacq.
    rewrite one_entrust_run, oneR_entrust_run, !decide_False, Hacq by assumption.
    unfold acquired in Hacq. destruct (representable t); [|discriminate].
    destruct (om_mtx s) as [| |d] eqn:Hm; try discriminate.
    injection Hacq as Hd. apply bool_decide_eq_false in Hd.
    exists d. split; [reflexivity|]. split; [lia|]. simpl.
    unfold timed_out. rewrite Hm. now split.
  - intros Hnin Hacq. simpl.
    rewrite one_entrust_run, oneR_entrust_run, !decide_False, Hacq by assumption.
    now split.
Qed.

(** ** C3: what [erase] removes *)

(** C3, as amended.  [erase] removes every entry equal to the key, not
    only the first, and keeps the other entries in their order; the
    mutex and the free store are untouched. *)
Theorem C3_erase_removes_all_equal (k : K) (s : store) :
  erase k s =
    (Ret tt, Store (filter (fun x => x <> k) (om_list s)) (om_mtx s) (heap s)
                   (trace s ++ [EvErase k])).
Proof.
  unfold erase, modify, log, with_list. simpl. now rewrite std_remove_filter.
Qed.

(** On a vector without duplicates the two removals agree. *)
Lemma std_remove_first_NoDup (t : K) (l : list K) :
  NoDup l -> std_remove t l = spec_remove_first t l.
Proof.
  induction 1 as [|x l Hx Hl IH]; simpl; [reflexivity|].
  destruct (decide (x = t)) as [->|Hne].
  - now apply std_remove_id.
  - now rewrite IH.
Qed.

(** ** Every construction and initialisation goes through [entrust] *)

Lemma one_ctor_shape (c : one_ctor_call) (sh : store * one) :
  one_ctor c sh =
    (one_entrust (one_ctor_timeout c) (one_ctor_key c) ;;; one_ctor_bind c) sh.
Proof. destruct c; reflexivity. Qed.

Lemma one_init_shape (c : one_init_call) (sh : store * one) :
  one_init c sh =
    try_catch
      (one_entrust (one_init_timeout c) (one_init_key c) ;;; one_init_bind c)
      (ret false) sh.
Proof. destruct c; reflexivity. Qed.

Lemma oneR_ctor_shape (c : oneR_ctor_call) (sh : store * oneR) :
  oneR_ctor c sh =
    (oneR_entrust (oneR_ctor_timeout c) (oneR_ctor_key c) ;;; oneR_ctor_bind c) sh.
Proof.
  destruct c as [t k a|k t]; [reflexivity|].
  simpl. unfold oneR_ctor_notUse, bind.
  destruct (oneR_entrust (default 5000 t) k sh) as [[[]| |] sh']; reflexivity.
Qed.

Lemma oneR_init_shape (c : oneR_init_call) (sh : store * oneR) :
  oneR_init c sh =
    try_catch
      (oneR_entrust (oneR_init_timeout c) (oneR_init_key c) ;;; oneR_init_bind c)
      (ret false) sh.
Proof. destruct c; reflexivity. Qed.

(** The step after the claim only allocates and binds: it leaves the
    vector and the mutex alone, and it throws only what [T] throws. *)
Lemma one_ctor_bind_frame (c : one_ctor_call) (s s' : store) (this this' : one)
    (r : outcome unit) :
  one_ctor_bind c (s, this) = (r, (s', this')) ->
  om_list s' = om_list s /\ om_mtx s' = om_mtx s /\
  (r = Ret tt \/ (r = Throw T_exception /\ s' = s /\ this' = this)).
Proof.
  destruct c; simpl; unfold bind, on_fst, new_T, one_set_base, modify; simpl;
    try destruct (T_ctor _); simpl; intros [= <- <- <-]; simpl; intuition auto.
Qed.

Lemma one_init_bind_frame (c : one_init_call) (s s' : store) (this this' : one)
    (r : outcome bool) :
  one_init_bind c (s, this) = (r, (s', this')) ->
  om_list s' = om_list s /\ om_mtx s' = om_mtx s /\
  (r = Ret true \/ (r = Throw T_exception /\ s' = s /\ this' = this)).
Proof.
  destruct c; simpl; unfold bind, on_fst, new_T, one_set_base, modify, ret; simpl;
    try destruct (T_ctor _); simpl; intros [= <- <- <-]; simpl; intuition auto.
Qed.

Lemma oneR_ctor_bind_frame (c : oneR_ctor_call) (s s' : store) (this this' : oneR)
    (r : outcome unit) :
  oneR_ctor_bind c (s, this) = (r, (s', this')) ->
  s' = s /\ (r = Ret tt \/ (r = Throw T_exception /\ this' = this)).
Proof.
  destruct c; simpl; unfold bind, on_fst, make_T, oneR_set_obj, modify, ret; simpl;
    try destruct (T_ctor _); simpl; intros [= <- <- <-]; simpl; intuition auto.
Qed.

Lemma oneR_init_bind_frame (c : oneR_init_call) (s s' : store) (this this' : oneR)
    (r : outcome bool) :
  oneR_init_bind c (s, this) = (r, (s', this')) ->
  s' = s /\ (r = Ret true \/ (r = Throw T_exception /\ this' = this)).
Proof.
  destruct c; simpl; unfold bind, on_fst, make_T, oneR_set_obj, modify, ret; simpl;
    try destruct (T_ctor _); simpl; intros [= <- <- <-]; simpl; intuition auto.
Qed.

Lemma claim_error_not_T (e : exn) :
  e = DuplicateKey \/ e = LockTimeout -> e <> T_exception.
Proof. intros [->| ->]; discriminate. Qed.

(** ** C4: a failed claim leaves the vector as it was *)

(** C4.  When a claim fails with DuplicateKey or LockTimeout, in
    [entrust] itself, in any constructor or in any [init] of either
    handle kind, the vector of claimed keys is what it was before the
    attempt, and an [init] that failed this way returns [false] with the
    handle unchanged. *)
Theorem C4_failed_claim_keeps_list (s : store) (e : exn) :
  e = DuplicateKey \/ e = LockTimeout ->
  (forall t k h sh', one_entrust t k (s, h) = (Throw e, sh') ->
     om_list (fst sh') = om_list s /\ snd sh' = h)
  /\ (forall t k r sh', oneR_entrust t k (s, r) = (Throw e, sh') ->
     om_list (fst sh') = om_list s /\ snd sh' = r)
  /\ (forall c s', construct_one (one_ctor c) s = (Throw e, s') ->
     om_list s' = om_list s)
  /\ (forall c s', construct_oneR (oneR_ctor c) s = (Throw e, s') ->
     om_list s' = om_list s)
  /\ (forall c h sh',
     one_entrust (one_init_timeout c) (one_init_key c) (s, h) = (Throw e, sh') ->
     exists s', one_init c (s, h) = (Ret false, (s', h)) /\ om_list s' = om_list s)
  /\ (forall c r sh',
     oneR_entrust (oneR_init_timeout c) (oneR_init_key c) (s, r) = (Throw e, sh') ->
     exists s', oneR_init c (s, r) = (Ret false, (s', r)) /\ om_list s' = om_list s).
Proof.
  intros He. pose proof (claim_error_not_T e He) as HneT.
  assert (Hone : forall t k h sh', one_entrust t k (s, h) = (Throw e, sh') ->
            om_list (fst sh') = om_list s /\ snd sh' = h).
  { intros t k h sh'. rewrite one_entrust_run.
    destruct (decide (k ∈ om_list s)); [now intros [= _ <-]|].
    destruct (acquired t (om_mtx s)) as [[|]|]; try discriminate.
    now intros [= _ <-]. }
  assert (HoneR : forall t k r sh', oneR_entrust t k (s, r) = (Throw e, sh') ->
            om_list (fst sh') = om_list s /\ snd sh' = r).
  { intros t k r sh'. rewrite oneR_entrust_run.
    destruct (decide (k ∈ om_list s)); [now intros [= _ <-]|].
    destruct (acquired t (om_mtx s)) as [[|]|]; try discriminate.
    now intros [= _ <-]. }
  split; [exact Hone|]. split; [exact HoneR|]. split; [|split; [|split]].
  - intros c s'. unfold construct_one. rewrite one_ctor_shape. unfold bind.
    destruct (one_entrust (one_ctor_timeout c) (one_ctor_key c) (s, one_members))
      as [[[]|e1|] [s1 h1]] eqn:Hrun.
    + destruct (one_ctor_bind c _) as [r [s2 h2]] eqn:Hb.
      apply one_ctor_bind_frame in Hb as (Hl & _ & [->|(-> & _)]).
      * discriminate.
      * intros [= <- <-]. congruence.
    + intros [= <- <-]. now apply Hone in Hrun as [Hl _].
    + discriminate.
  - intros c s'. unfold construct_oneR.
    destruct (T_ctor T_default) as [v|]; [|intros [= <- <-]; congruence].
    rewrite oneR_ctor_shape. unfold bind.
    destruct (oneR_entrust (oneR_ctor_timeout c) (oneR_ctor_key c) (s, OneR v default_data))
      as [[[]|e1|] [s1 h1]] eqn:Hrun.
    + destruct (oneR_ctor_bind c _) as [r [s2 h2]] eqn:Hb.
      apply oneR_ctor_bind_frame in Hb as (-> & [->|(-> & _)]).
      * discriminate.
      * intros [= <- <-]. congruence.
    + intros [= <- <-]. now apply HoneR in Hrun as [Hl _].
    + discriminate.
  - intros c h [s1 h1] Hrun. exists s1.
    rewrite one_init_shape. unfold try_catch, bind. rewrite Hrun.
    apply Hone in Hrun as [Hl Hh]. simpl in *. subst h1. now split.
  - intros c r [s1 r1] Hrun. exists s1.
    rewrite oneR_init_shape. unfold try_catch, bind. rewrite Hrun.
    apply HoneR in Hrun as [Hl Hh]. simpl in *. subst r1. now split.
Qed.

(** ** Destruction, run *)

Lemma lock_run (s : store) :
  lock s =
    match om_mtx s with
    | Owned => (Undefined, s)
    | _ => (Ret tt, log EvLock (with_mtx Owned s))
    end.
Proof. unfold lock. now destruct (om_mtx s). Qed.

Lemma destroy_one_run (this : one) (s : store) :
  destroy_one this s =
    match om_mtx s with
    | Owned => (Undefined, s)
    | _ =>
        let d := one_data this in
        match one_base this with
        | indeterminate => (Undefined, erased d s)
        | points_to (retain p) =>
            match heap s !! p with
            | None => (Undefined, erased d s)
            | Some _ =>
                (Ret tt,
                 Store (std_remove d (om_list s)) Free (delete p (heap s))
                       (trace s ++ [EvLock; EvErase d; EvDelete p; EvUnlock]))
            end
        | points_to (package _) =>
            (Ret tt,
             Store (std_remove d (om_list s)) Free (heap s)
                   (trace s ++ [EvLock; EvErase d; EvUnlock]))
        end
    end.
Proof.
  unfold destroy_one, one_dtor, bind, on_fst. cbn [fst snd].
  rewrite lock_run.
  destruct (om_mtx s) eqn:Hm; cbn [fst snd]; try reflexivity.
  all: unfold gets, erase, modify; cbn [fst snd].
  all: unfold delete_base, bind, gets; cbn [fst snd].
  all: destruct (one_base this) as [|[p|o]]; cbn [fst snd].
  all: unfold undefined, ret, on_fst, delete_T, unlock, erased; simpl;
    try destruct (heap s !! p); simpl; try reflexivity.
  all: unfold log, with_heap, with_mtx, with_list; simpl;
    now rewrite <- !app_assoc.
Qed.

Lemma destroy_oneR_run (this : oneR) (s : store) :
  destroy_oneR this s =
    match om_mtx s with
    | Owned => (Undefined, s)
    | _ =>
        (Ret tt,
         Store (std_remove (oneR_data this) (om_list s)) Free (heap s)
               (trace s ++ [EvLock; EvErase (oneR_data this); EvUnlock]))
    end.
Proof.
  unfold destroy_oneR, oneR_dtor, erase_wrapped, bind, on_fst. cbn [fst snd].
  rewrite lock_run.
  destruct (om_mtx s) eqn:Hm; cbn [fst snd]; try reflexivity.
  all: unfold gets, erase, modify, unlock; simpl.
  all: unfold log, with_heap, with_mtx, with_list; simpl;
    now rewrite <- !app_assoc.
Qed.

(** ** C6: the order of the destructor's steps *)

(** C6, as amended.  Destroying a bound indirect handle locks the mutex
    without a timeout, erases the handle's key, then (for an owning
    handle only) deletes the instance while the mutex is still owned,
    and unlocks last.  A borrowing handle leaves the free store, and so
    the caller's instance, untouched. *)
Theorem C6_destruction_steps (this : one) (b : Base) (s : store) :
  om_mtx s <> Owned ->
  one_base this = points_to b ->
  (forall p, b = retain p -> is_Some (heap s !! p)) ->
  destroy_one this s =
    (Ret tt,
     Store (std_remove (one_data this) (om_list s)) Free
           (match b with
            | retain p => delete p (heap s)
            | package _ => heap s
            end)
           (trace s ++ [EvLock; EvErase (one_data this)] ++
                       match b with
                       | retain p => [EvDelete p]
                       | package _ => []
                       end ++ [EvUnlock])).
Proof.
  intros Hm Hb Hlive. rewrite destroy_one_run. rewrite Hb.
  destruct b as [p|o].
  - destruct (Hlive p eq_refl) as [v Hv]. rewrite Hv.
    destruct (om_mtx s); [reflexivity | congruence | reflexivity].
  - destruct (om_mtx s); [reflexivity | congruence | reflexivity].
Qed.

(** ** C10: destroying a handle that never claimed *)

(** C10.  A default-constructed handle holds the value-initialised
    tuple.  Destroying it while it is still unbound locks the mutex and
    erases every entry equal to that tuple: [~oneR] then unlocks and
    returns; [~one] goes on to [delete base] with a pointer that was
    never assigned.  Either way an entry that another handle had
    claimed for that tuple is gone, and that key is no longer found. *)
Theorem C10_unbound_destruction_erases (s : store) (v : T) :
  om_mtx s <> Owned ->
  construct_one one_ctor_default s = (Ret (One default_data indeterminate), s)
  /\ (T_ctor T_default = Some v ->
      construct_oneR oneR_ctor_default s = (Ret (OneR v default_data), s))
  /\ destroy_oneR (OneR v default_data) s =
       (Ret tt,
        Store (filter (fun x => x <> default_data) (om_list s)) Free (heap s)
              (trace s ++ [EvLock; EvErase default_data; EvUnlock]))
  /\ destroy_one (One default_data indeterminate) s =
       (Undefined,
        Store (filter (fun x => x <> default_data) (om_list s)) Owned (heap s)
              (trace s ++ [EvLock; EvErase default_data]))
  /\ (forall s' r, destroy_oneR (OneR v default_data) s = (r, s') ->
      fst (verified default_data s') = Ret false)
  /\ (forall s' r, destroy_one (One default_data indeterminate) s = (r, s') ->
      fst (verified default_data s') = Ret false).
Proof.
  intros Hm.
  assert (Hgone : default_data ∉ filter (fun x => x <> default_data) (om_list s)).
  { rewrite <- std_remove_filter. apply std_remove_not_elem. }
  split; [reflexivity|]. split.
  { intros Hv. unfold construct_oneR. now rewrite Hv. }
  assert (HR : destroy_oneR (OneR v default_data) s =
       (Ret tt,
        Store (filter (fun x => x <> default_data) (om_list s)) Free (heap s)
              (trace s ++ [EvLock; EvErase default_data; EvUnlock]))).
  { rewrite destroy_oneR_run. simpl. rewrite std_remove_filter.
    destruct (om_mtx s); congruence. }
  assert (HO : destroy_one (One default_data indeterminate) s =
       (Undefined,
        Store (filter (fun x => x <> default_data) (om_list s)) Owned (heap s)
              (trace s ++ [EvLock; EvErase default_data]))).
  { rewrite destroy_one_run. unfold erased. simpl. rewrite std_remove_filter.
    destruct (om_mtx s); congruence. }
  split; [exact HR|]. split; [exact HO|].
  rewrite HR, HO.
  split; intros s' r [= <- <-]; rewrite verified_run; cbn [fst om_list];
    now rewrite bool_decide_eq_false_2.
Qed.

(** ** Constructions, run *)

Lemma construct_one_run (c : one_ctor_call) (s : store) :
  let k := one_ctor_key c in
  let t := one_ctor_timeout c in
  construct_one (one_ctor c) s =
    if decide (k ∈ om_list s)
    then (Throw DuplicateKey, log (EvVerified k) s)
    else match acquired t (om_mtx s) with
         | Some true => finish_one (one_ctor_bind c (claimed t k s, One (moved_from (moved_from k)) indeterminate))
         | Some false => (Throw LockTimeout, timed_out t k s)
         | None => (Undefined, log (EvVerified k) s)
         end.
Proof.
  intros k t. unfold construct_one. rewrite one_ctor_shape. unfold bind.
  fold k t. rewrite one_entrust_run.
  destruct (decide (k ∈ om_list s)); [reflexivity|].
  destruct (acquired t (om_mtx s)) as [[|]|]; reflexivity.
Qed.

Lemma construct_oneR_run (c : oneR_ctor_call) (s : store) (v : T) :
  let k := oneR_ctor_key c in
  let t := oneR_ctor_timeout c in
  T_ctor T_default = Some v ->
  construct_oneR (oneR_ctor c) s =
    if decide (k ∈ om_list s)
    then (Throw DuplicateKey, log (EvVerified k) s)
    else match acquired t (om_mtx s) with
         | Some true => finish_oneR (oneR_ctor_bind c (claimed t k s, OneR v (moved_from (moved_from k))))
         | Some false => (Throw LockTimeout, timed_out t k s)
         | None => (Undefined, log (EvVerified k) s)
         end.
Proof.
  intros k t Hv. unfold construct_oneR. rewrite Hv. rewrite oneR_ctor_shape. unfold bind.
  fold k t. rewrite oneR_entrust_run.
  destruct (decide (k ∈ om_list s)); [reflexivity|].
  destruct (acquired t (om_mtx s)) as [[|]|]; reflexivity.
Qed.

(** What a successful binding step leaves. *)
Lemma one_ctor_bind_Ret (c : one_ctor_call) (s s1 : store) (this h : one) :
  one_ctor_bind c (s, this) = (Ret tt, (s1, h)) ->
  one_data h = one_data this /\ om_list s1 = om_list s /\ om_mtx s1 = om_mtx s /\
  ((exists v, one_base h = points_to (retain (fresh (dom (heap s)))) /\
              heap s1 = <[fresh (dom (heap s)) := v]> (heap s))
   \/ (exists d, one_base h = points_to (package d) /\ heap s1 = heap s)).
Proof.
  destruct c; simpl; unfold bind, on_fst, new_T, one_set_base, modify; simpl;
    try (destruct (T_ctor _) as [v|]; simpl; [|discriminate]);
    intros [= <- <-]; simpl; repeat split; eauto.
Qed.

(** Whether the binding step succeeds does not depend on the state. *)
Lemma one_ctor_bind_again (c : one_ctor_call) (sh sh1 sh' : store * one) :
  one_ctor_bind c sh = (Ret tt, sh1) ->
  exists sh1', one_ctor_bind c sh' = (Ret tt, sh1').
Proof.
  destruct c; simpl; unfold bind, on_fst, new_T, one_set_base, modify; simpl;
    try (destruct (T_ctor _) as [v|]; simpl; [|discriminate]);
    intros _; eauto.
Qed.

Lemma oneR_ctor_bind_Ret (c : oneR_ctor_call) (s s1 : store) (this h : oneR) :
  oneR_ctor_bind c (s, this) = (Ret tt, (s1, h)) ->
  oneR_data h = oneR_data this /\ s1 = s.
Proof.
  destruct c; simpl; unfold bind, on_fst, make_T, oneR_set_obj, modify, ret; simpl;
    try (destruct (T_ctor _) as [v|]; simpl; [|discriminate]);
    intros [= <- <-]; simpl; auto.
Qed.

Lemma oneR_ctor_bind_again (c : oneR_ctor_call) (sh sh1 sh' : store * oneR) :
  oneR_ctor_bind c sh = (Ret tt, sh1) ->
  exists sh1', oneR_ctor_bind c sh' = (Ret tt, sh1').
Proof.
  destruct c; simpl; unfold bind, on_fst, make_T, oneR_set_obj, modify, ret; simpl;
    try (destruct (T_ctor _) as [v|]; simpl; [|discriminate]);
    intros _; eauto.
Qed.

(** A construction that returned went through the claim. *)
Lemma construct_one_Ret (c : one_ctor_call) (s s1 : store) (h : one) :
  construct_one (one_ctor c) s = (Ret h, s1) ->
  (one_ctor_key c ∉ om_list s) /\
  acquired (one_ctor_timeout c) (om_mtx s) = Some true /\
  one_ctor_bind c (claimed (one_ctor_timeout c) (one_ctor_key c) s,
                   One (moved_from (moved_from (one_ctor_key c))) indeterminate)
    = (Ret tt, (s1, h)).
Proof.
  rewrite construct_one_run. cbv zeta.
  destruct (decide (one_ctor_key c ∈ om_list s)); [discriminate|].
  assert (Hfin : forall r, finish_one r = (Ret h, s1) -> r = (Ret tt, (s1, h))).
  { intros [[[]| |] [s' h']]; simpl; intros [= <- <-]; reflexivity. }
  destruct (acquired _ _) as [[|]|]; [auto|discriminate|discriminate].
Qed.

Lemma construct_oneR_Ret (c : oneR_ctor_call) (s s1 : store) (h : oneR) :
  construct_oneR (oneR_ctor c) s = (Ret h, s1) ->
  exists v, T_ctor T_default = Some v /\
  (oneR_ctor_key c ∉ om_list s) /\
  acquired (oneR_ctor_timeout c) (om_mtx s) = Some true /\
  oneR_ctor_bind c (claimed (oneR_ctor_timeout c) (oneR_ctor_key c) s,
                    OneR v (moved_from (moved_from (oneR_ctor_key c))))
    = (Ret tt, (s1, h)).
Proof.
  destruct (T_ctor T_default) as [v|] eqn:Hv;
    [|unfold construct_oneR; rewrite Hv; discriminate].
  rewrite (construct_oneR_run c s v Hv). cbv zeta.
  destruct (decide (oneR_ctor_key c ∈ om_list s)); [discriminate|].
  assert (Hfin : forall r, finish_oneR r = (Ret h, s1) -> r = (Ret tt, (s1, h))).
  { intros [[[]| |] [s' h']]; simpl; intros [= <- <-]; reflexivity. }
  exists v. split; [reflexivity|].
  destruct (acquired _ _) as [[|]|]; [auto|discriminate|discriminate].
Qed.

Lemma std_remove_snoc (k : K) (l : list K) :
  k ∉ l -> std_remove k (l ++ [k]) = l.
Proof.
  intros Hn. rewrite std_remove_app, std_remove_id by assumption.
  simpl. rewrite decide_True by reflexivity. apply app_nil_r.
Qed.
(** Erasing the stored key removes the claim of [k]: the vector holds
    the key after one move, the handle the key after two. *)
Lemma claim_erased (k : K) (l : list K) :
  k ∉ l -> k ∉ std_remove (moved_from (moved_from k)) (l ++ [moved_from k]).
Proof.
  intros Hn. rewrite std_remove_elem, elem_of_app, list_elem_of_singleton.
  intros [Hne [Hin|Heq]]; [contradiction|].
  apply Hne. now rewrite <- Heq.
Qed.
(** A timeout that obtained the mutex obtains a free one. *)
Lemma acquired_Free (t : milliseconds) (m : timed_mutex) :
  acquired t m = Some true -> acquired t Free = Some true.
Proof. unfold acquired. destruct (representable t); [reflexivity|discriminate]. Qed.

(** ** C8: a destroyed handle's key can be claimed again *)

(** C8.  When a construction with key [K] has returned a handle and
    that handle is destroyed, the destructor returns, [K] is no longer
    in the vector, no later construction with [K] throws DuplicateKey,
    and the same construction call succeeds again.  This holds for both
    handle kinds and every constructor that takes a key. *)
Theorem C8_key_reusable_after_destruction (s : store) :
  (forall c h s1, construct_one (one_ctor c) s = (Ret h, s1) ->
     exists s2, destroy_one h s1 = (Ret tt, s2)
       /\ (one_ctor_key c ∉ om_list s2)
       /\ (forall c', one_ctor_key c' = one_ctor_key c ->
             fst (construct_one (one_ctor c') s2) <> Throw DuplicateKey)
       /\ exists h' s3, construct_one (one_ctor c) s2 = (Ret h', s3))
  /\ (forall c r s1, construct_oneR (oneR_ctor c) s = (Ret r, s1) ->
     exists s2, destroy_oneR r s1 = (Ret tt, s2)
       /\ (oneR_ctor_key c ∉ om_list s2)
       /\ (forall c', oneR_ctor_key c' = oneR_ctor_key c ->
             fst (construct_oneR (oneR_ctor c') s2) <> Throw DuplicateKey)
       /\ exists r' s3, construct_oneR (oneR_ctor c) s2 = (Ret r', s3)).
Proof.
  split.
  - intros c h s1 Hc.
    apply construct_one_Ret in Hc as (Hnin & Hlock & Hbind).
    pose proof (one_ctor_bind_Ret _ _ _ _ _ Hbind) as (Hd & Hl & Hm & Hheap).
    simpl in Hd, Hl, Hm, Hheap.
    assert (Hdes : exists s2, destroy_one h s1 = (Ret tt, s2)
              /\ (one_ctor_key c ∉ om_list s2) /\ om_mtx s2 = Free).
    { rewrite destroy_one_run, Hm, Hd, Hl. cbv zeta.
      pose proof (claim_erased _ _ Hnin) as Hgone.
      destruct Hheap as [(v & Hb & Hh)|(d & Hb & Hh)]; rewrite Hb.
      - rewrite Hh, lookup_insert_eq. eauto.
      - eauto. }
    destruct Hdes as (s2 & Hdes & Hl2 & Hm2).
    apply acquired_Free in Hlock.
    exists s2. split; [exact Hdes|]. split; [exact Hl2|]. split.
    + intros c' Hk. rewrite construct_one_run. cbv zeta.
      rewrite Hk, decide_False, Hm2 by assumption.
      destruct (one_ctor_bind c' _) as [r [s3 h3]] eqn:Hb.
      apply one_ctor_bind_frame in Hb as (_ & _ & [->|(-> & _)]); 
        destruct (acquired (one_ctor_timeout c') Free) as [[|]|]; simpl; discriminate.
    + rewrite construct_one_run. cbv zeta.
      rewrite decide_False, Hm2, Hlock by assumption.
      destruct (one_ctor_bind_again c _ _
                  (claimed (one_ctor_timeout c) (one_ctor_key c) s2,
                   One (moved_from (moved_from (one_ctor_key c))) indeterminate) Hbind)
        as ([s3 h3] & Hb).
      rewrite Hb. simpl. eauto.
  - intros c r s1 Hc.
    apply construct_oneR_Ret in Hc as (v & Hv & Hnin & Hlock & Hbind).
    pose proof (oneR_ctor_bind_Ret _ _ _ _ _ Hbind) as (Hd & ->).
    simpl in Hd.
    assert (Hdes : exists s2, destroy_oneR r (claimed (oneR_ctor_timeout c) (oneR_ctor_key c) s)
                              = (Ret tt, s2)
              /\ (oneR_ctor_key c ∉ om_list s2) /\ om_mtx s2 = Free).
    { rewrite destroy_oneR_run, Hd. simpl.
      pose proof (claim_erased _ _ Hnin) as Hgone. eauto. }
    destruct Hdes as (s2 & Hdes & Hl2 & Hm2).
    apply acquired_Free in Hlock.
    exists s2. split; [exact Hdes|]. split; [exact Hl2|]. split.
    + intros c' Hk. rewrite (construct_oneR_run c' s2 v Hv). cbv zeta.
      rewrite Hk, decide_False, Hm2 by assumption.
      destruct (oneR_ctor_bind c' _) as [r' [s3 h3]] eqn:Hb.
      apply oneR_ctor_bind_frame in Hb as (_ & [->|(-> & _)]);
        destruct (acquired (oneR_ctor_timeout c') Free) as [[|]|]; simpl; discriminate.
    + rewrite (construct_oneR_run c s2 v Hv). cbv zeta.
      rewrite decide_False, Hm2, Hlock by assumption.
      destruct (oneR_ctor_bind_again c _ _
                  (claimed (oneR_ctor_timeout c) (oneR_ctor_key c) s2,
                   OneR v (moved_from (moved_from (oneR_ctor_key c)))) Hbind)
        as ([s3 h3] & Hb).
      rewrite Hb. simpl. eauto.
Qed.

(** ** Keys that a move leaves unchanged: the vector holds no key twice *)

Lemma list_step_NoDup (l l' : list K) : list_step l l' -> NoDup l -> NoDup l'.
Proof.
  intros [->|[(k & Hk & ->)|(d & ->)]] Hnd.
  - exact Hnd.
  - apply NoDup_app. split; [exact Hnd|]. split.
    + intros x Hx Hx'. apply list_elem_of_singleton in Hx'. now subst.
    + apply NoDup_singleton.
  - now apply std_remove_NoDup.
Qed.

Lemma one_entrust_list_step (t : milliseconds) (k : K) (s : store) (this : one) :
  (forall x, moved_from x = x) ->
  list_step (om_list s) (om_list (fst (snd (one_entrust t k (s, this))))).
Proof.
  intros Hmove. rewrite one_entrust_run.
  destruct (decide (k ∈ om_list s)); [now left|].
  destruct (acquired t (om_mtx s)) as [[|]|]; simpl; [|now left|now left].
  right. left. exists k. now rewrite Hmove.
Qed.

Lemma oneR_entrust_list_step (t : milliseconds) (k : K) (s : store) (this : oneR) :
  (forall x, moved_from x = x) ->
  list_step (om_list s) (om_list (fst (snd (oneR_entrust t k (s, this))))).
Proof.
  intros Hmove. rewrite oneR_entrust_run.
  destruct (decide (k ∈ om_list s)); [now left|].
  destruct (acquired t (om_mtx s)) as [[|]|]; simpl; [|now left|now left].
  right. left. exists k. now rewrite Hmove.
Qed.

Lemma step_list_step (a : action) (s : store) :
  (forall x, moved_from x = x) ->
  list_step (om_list s) (om_list (step a s)).
Proof.
  intros Hmove. destruct a as [c| |this c|this|c| |this c|this]; simpl.
  - unfold construct_one. rewrite one_ctor_shape. unfold bind.
    pose proof (one_entrust_list_step (one_ctor_timeout c) (one_ctor_key c) s one_members Hmove) as Hs.
    destruct (one_entrust _ _ _) as [[[]|e|] [s1 h1]]; simpl in *; try exact Hs.
    destruct (one_ctor_bind c (s1, h1)) as [r [s2 h2]] eqn:Hb.
    apply one_ctor_bind_frame in Hb as (Hl & _ & _).
    destruct r; simpl; now rewrite Hl.
  - now left.
  - rewrite one_init_shape. unfold try_catch, bind.
    pose proof (one_entrust_list_step (one_init_timeout c) (one_init_key c) s this Hmove) as Hs.
    destruct (one_entrust _ _ _) as [[[]|e|] [s1 h1]]; simpl in *; try exact Hs.
    destruct (one_init_bind c (s1, h1)) as [r [s2 h2]] eqn:Hb.
    apply one_init_bind_frame in Hb as (Hl & _ & _).
    destruct r; simpl; now rewrite Hl.
  - rewrite destroy_one_run.
    destruct (om_mtx s); [|now left|].
    all: cbv zeta; destruct (one_base this) as [|[p|o]]; simpl;
      try destruct (heap s !! p); simpl; right; right; eauto.
  - unfold construct_oneR. destruct (T_ctor T_default) as [v|]; [|now left].
    rewrite oneR_ctor_shape. unfold bind.
    pose proof (oneR_entrust_list_step (oneR_ctor_timeout c) (oneR_ctor_key c) s
                  (OneR v default_data) Hmove) as Hs.
    destruct (oneR_entrust _ _ _) as [[[]|e|] [s1 h1]]; simpl in *; try exact Hs.
    destruct (oneR_ctor_bind c (s1, h1)) as [r [s2 h2]] eqn:Hb.
    apply oneR_ctor_bind_frame in Hb as (-> & _).
    destruct r; simpl; exact Hs.
  - unfold construct_oneR. destruct (T_ctor T_default) as [v|]; now left.
  - rewrite oneR_init_shape. unfold try_catch, bind.
    pose proof (oneR_entrust_list_step (oneR_init_timeout c) (oneR_init_key c) s this Hmove) as Hs.
    destruct (oneR_entrust _ _ _) as [[[]|e|] [s1 h1]]; simpl in *; try exact Hs.
    destruct (oneR_init_bind c (s1, h1)) as [r [s2 h2]] eqn:Hb.
    apply oneR_init_bind_frame in Hb as (-> & _).
    destruct r; simpl; exact Hs.
  - rewrite destroy_oneR_run.
    destruct (om_mtx s); simpl; [|now left|]; right; right; eauto.
Qed.

Lemma run_NoDup (l : list action) (s : store) :
  (forall x, moved_from x = x) ->
  NoDup (om_list s) -> NoDup (om_list (run l s)).
Proof.
  intros Hmove. revert s. induction l as [|a l IH]; intros s Hnd; simpl; [exact Hnd|].
  apply IH. eapply list_step_NoDup; [apply step_list_step, Hmove | exact Hnd].
Qed.

(** For a key type whose moved-from value equals the value moved
    (an integer, a tuple of integers): whatever constructions,
    initialisations and destructions of handles of either kind are
    performed one after the other from program start, successful or
    not, the vector of claimed keys has no two equal entries. *)
Theorem copied_keys_stay_unique (l : list action) :
  (forall x, moved_from x = x) ->
  NoDup (om_list (run l initial)).
Proof. intros Hmove. apply run_NoDup; [exact Hmove|]. simpl. apply NoDup_nil_2. Qed.

(** ** Initialisations, run *)

Lemma one_init_run (c : one_init_call) (s : store) (this : one) :
  let k := one_init_key c in
  let t := one_init_timeout c in
  one_init c (s, this) =
    if decide (k ∈ om_list s)
    then (Ret false, (log (EvVerified k) s, this))
    else match acquired t (om_mtx s) with
         | Some true => caught (one_init_bind c (claimed t k s, One (moved_from (moved_from k)) (one_base this)))
         | Some false => (Ret false, (timed_out t k s, this))
         | None => (Undefined, (log (EvVerified k) s, this))
         end.
Proof.
  intros k t. rewrite one_init_shape. unfold try_catch, bind.
  fold k t. rewrite one_entrust_run.
  destruct (decide (k ∈ om_list s)); [reflexivity|].
  destruct (acquired t (om_mtx s)) as [[|]|]; simpl; try reflexivity.
  now destruct (one_init_bind c _) as [[| |] ?].
Qed.

Lemma oneR_init_run (c : oneR_init_call) (s : store) (this : oneR) :
  let k := oneR_init_key c in
  let t := oneR_init_timeout c in
  oneR_init c (s, this) =
    if decide (k ∈ om_list s)
    then (Ret false, (log (EvVerified k) s, this))
    else match acquired t (om_mtx s) with
         | Some true => caught (oneR_init_bind c (claimed t k s, OneR (oneR_obj this) (moved_from (moved_from k))))
         | Some false => (Ret false, (timed_out t k s, this))
         | None => (Undefined, (log (EvVerified k) s, this))
         end.
Proof.
  intros k t. rewrite oneR_init_shape. unfold try_catch, bind.
  fold k t. rewrite oneR_entrust_run.
  destruct (decide (k ∈ om_list s)); [reflexivity|].
  destruct (acquired t (om_mtx s)) as [[|]|]; simpl; try reflexivity.
  now destruct (oneR_init_bind c _) as [[| |] ?].
Qed.

(** [init] returns a boolean whenever the caller does not already own
    the mutex and the timeout is representable: nothing it calls can
    throw past its handler. *)
Lemma one_init_returns (c : one_init_call) (s : store) (this : one) :
  om_mtx s <> Owned -> representable (one_init_timeout c) = true ->
  exists b sh', one_init c (s, this) = (Ret b, sh').
Proof.
  intros Hm Hr. rewrite one_init_run. cbv zeta.
  assert (Hc : forall sh, exists b sh', caught (one_init_bind c sh) = (Ret b, sh')).
  { intros [s1 h1]. destruct (one_init_bind c (s1, h1)) as [r [s2 h2]] eqn:Hb.
    apply one_init_bind_frame in Hb as (_ & _ & [->|(-> & _)]); simpl; eauto. }
  destruct (decide (one_init_key c ∈ om_list s)); [eauto|].
  unfold acquired. rewrite Hr.
  destruct (om_mtx s) as [| |d]; [apply Hc|congruence|].
  destruct (bool_decide (d <= one_init_timeout c)); [apply Hc|eauto].
Qed.

Lemma oneR_init_returns (c : oneR_init_call) (s : store) (this : oneR) :
  om_mtx s <> Owned -> representable (oneR_init_timeout c) = true ->
  exists b sh', oneR_init c (s, this) = (Ret b, sh').
Proof.
  intros Hm Hr. rewrite oneR_init_run. cbv zeta.
  assert (Hc : forall sh, exists b sh', caught (oneR_init_bind c sh) = (Ret b, sh')).
  { intros [s1 h1]. destruct (oneR_init_bind c (s1, h1)) as [r [s2 h2]] eqn:Hb.
    apply oneR_init_bind_frame in Hb as (_ & [->|(-> & _)]); simpl; eauto. }
  destruct (decide (oneR_init_key c ∈ om_list s)); [eauto|].
  unfold acquired. rewrite Hr.
  destruct (om_mtx s) as [| |d]; [apply Hc|congruence|].
  destruct (bool_decide (d <= oneR_init_timeout c)); [apply Hc|eauto].
Qed.

(** An [init] asked for a key that is in the vector returns [false] and
    changes nothing but the log. *)
Lemma one_init_duplicate (c : one_init_call) (s : store) (this : one) :
  one_init_key c ∈ om_list s ->
  one_init c (s, this) = (Ret false, (log (EvVerified (one_init_key c)) s, this)).
Proof. intros Hin. rewrite one_init_run. cbv zeta. now rewrite decide_True. Qed.

Lemma oneR_init_duplicate (c : oneR_init_call) (s : store) (this : oneR) :
  oneR_init_key c ∈ om_list s ->
  oneR_init c (s, this) = (Ret false, (log (EvVerified (oneR_init_key c)) s, this)).
Proof. intros Hin. rewrite oneR_init_run. cbv zeta. now rewrite decide_True. Qed.

(** When the claim goes through and the constructor of [T] then throws,
    [init] returns [false] with the claim's entry left in the vector. *)
Lemma one_init_args_T_throws (k : K) (t : milliseconds) (a : CArgs)
    (s : store) (this : one) :
  k ∉ om_list s -> lock_within t (om_mtx s) = true ->
  T_ctor (T_from_args a) = None ->
  one_init (InitArgs k t a) (s, this) =
    (Ret false, (claimed t k s, One (moved_from (moved_from k)) (one_base this))).
Proof.
  intros Hn Hl Ht. rewrite one_init_run. cbv zeta. simpl.
  rewrite decide_False by assumption.
  apply acquired_lock_within in Hl. rewrite Hl.
  simpl. unfold bind, on_fst, new_T. simpl. now rewrite Ht.
Qed.

Lemma oneR_init_args_T_throws (k : K) (t : milliseconds) (a : CArgs)
    (s : store) (this : oneR) :
  k ∉ om_list s -> lock_within t (om_mtx s) = true ->
  T_ctor (T_from_args a) = None ->
  oneR_init (RInitArgs t k a) (s, this) =
    (Ret false, (claimed t k s, OneR (oneR_obj this) (moved_from (moved_from k)))).
Proof.
  intros Hn Hl Ht. rewrite oneR_init_run. cbv zeta. simpl.
  rewrite decide_False by assumption.
  apply acquired_lock_within in Hl. rewrite Hl.
  simpl. unfold bind, on_fst, make_T. simpl. now rewrite Ht.
Qed.

(** ** C9: the default timeouts *)

(** With the mutex held elsewhere for [d] ms, a representable timeout
    obtains it exactly when it is at least [d]. *)
Lemma acquired_Held (t d : milliseconds) :
  representable t = true -> acquired t (Held d) = Some (bool_decide (d <= t)).
Proof. unfold acquired. now intros ->. Qed.
Lemma representable_defaults :
  representable (min_ 5000) = true /\ representable 5000 = true.
Proof. split; reflexivity. Qed.
Lemma one_default_timeout (c : one_ctor_call) :
  one_ctor_omits_timeout c = true -> one_ctor_timeout c = 300000000.
Proof. destruct c as [k t a|k [t|]|k [t|]|p k [t|]]; simpl; intros [=]; reflexivity. Qed.
Lemma one_init_default_timeout (c : one_init_call) :
  one_init_omits_timeout c = true -> one_init_timeout c = 300000000.
Proof. destruct c as [k t a|p k [t|]|k [t|]]; simpl; intros [=]; reflexivity. Qed.
Lemma oneR_default_timeout (c : oneR_ctor_call) :
  oneR_ctor_omits_timeout c = true -> oneR_ctor_timeout c = 5000.
Proof. destruct c as [t k a|k [t|]]; simpl; intros [=]; reflexivity. Qed.
Lemma oneR_init_default_timeout (c : oneR_init_call) :
  oneR_init_omits_timeout c = true -> oneR_init_timeout c = 5000.
Proof. destruct c as [k [t|]|t k a]; simpl; intros [=]; reflexivity. Qed.

(** C9.  The mutex is held elsewhere for another [d] ms and the key is
    not in the vector.  A constructor or [init] of [one] called without
    a timeout calls [try_lock_for] with 300000000 ms (5000 min): it
    obtains the mutex when [d <= 300000000] and otherwise throws
    LockTimeout (the constructors) or returns [false] ([init]).  A
    constructor or [init] of [oneR] called without a timeout calls
    [try_lock_for] with 5000 ms.  So for [5000 < d <= 300000000] the
    defaulted [one] constructors claim the key while the defaulted
    [oneR] constructor throws LockTimeout after waiting 5000 ms. *)
Theorem C9_default_timeouts (s : store) (d : milliseconds) :
  om_mtx s = Held d ->
  (forall c, one_ctor_omits_timeout c = true -> one_ctor_key c ∉ om_list s ->
     construct_one (one_ctor c) s =
       if decide (d <= 300000000)
       then finish_one (one_ctor_bind c
              (claimed 300000000 (one_ctor_key c) s,
               One (moved_from (moved_from (one_ctor_key c))) indeterminate))
       else (Throw LockTimeout, timed_out 300000000 (one_ctor_key c) s))
  /\ (forall c this, one_init_omits_timeout c = true -> one_init_key c ∉ om_list s ->
     one_init c (s, this) =
       if decide (d <= 300000000)
       then caught (one_init_bind c
              (claimed 300000000 (one_init_key c) s,
               One (moved_from (moved_from (one_init_key c))) (one_base this)))
       else (Ret false, (timed_out 300000000 (one_init_key c) s, this)))
  /\ (forall c v, oneR_ctor_omits_timeout c = true -> T_ctor T_default = Some v ->
     oneR_ctor_key c ∉ om_list s ->
     construct_oneR (oneR_ctor c) s =
       if decide (d <= 5000)
       then finish_oneR (oneR_ctor_bind c
              (claimed 5000 (oneR_ctor_key c) s,
               OneR v (moved_from (moved_from (oneR_ctor_key c)))))
       else (Throw LockTimeout, timed_out 5000 (oneR_ctor_key c) s))
  /\ (forall c this, oneR_init_omits_timeout c = true -> oneR_init_key c ∉ om_list s ->
     oneR_init c (s, this) =
       if decide (d <= 5000)
       then caught (oneR_init_bind c
              (claimed 5000 (oneR_init_key c) s,
               OneR (oneR_obj this) (moved_from (moved_from (oneR_init_key c)))))
       else (Ret false, (timed_out 5000 (oneR_init_key c) s, this)))
  /\ (5000 < d <= 300000000 ->
      (forall c, one_ctor_omits_timeout c = true -> one_ctor_key c ∉ om_list s ->
         fst (construct_one (one_ctor c) s) <> Throw LockTimeout
         /\ om_list (snd (construct_one (one_ctor c) s))
            = om_list s ++ [moved_from (one_ctor_key c)])
      /\ (forall c v, oneR_ctor_omits_timeout c = true -> T_ctor T_default = Some v ->
         oneR_ctor_key c ∉ om_list s ->
         construct_oneR (oneR_ctor c) s =
           (Throw LockTimeout,
            Store (om_list s) (Held (d - 5000)) (heap s)
                  (trace s ++ [EvVerified (oneR_ctor_key c); EvTryLockFor 5000])))).
Proof.
  intros Hm.
  assert (H1 : forall c, one_ctor_omits_timeout c = true -> one_ctor_key c ∉ om_list s ->
     construct_one (one_ctor c) s =
       if decide (d <= 300000000)
       then finish_one (one_ctor_bind c
              (claimed 300000000 (one_ctor_key c) s,
               One (moved_from (moved_from (one_ctor_key c))) indeterminate))
       else (Throw LockTimeout, timed_out 300000000 (one_ctor_key c) s)).
  { intros c Ho Hn. rewrite construct_one_run. cbv zeta.
    rewrite decide_False, Hm, (one_default_timeout c Ho) by assumption.
    rewrite acquired_Held by reflexivity.
    destruct (decide (d <= 300000000)) as [Hd|Hd].
    - now rewrite bool_decide_eq_true_2.
    - now rewrite bool_decide_eq_false_2. }
  assert (H3 : forall c v, oneR_ctor_omits_timeout c = true -> T_ctor T_default = Some v ->
     oneR_ctor_key c ∉ om_list s ->
     construct_oneR (oneR_ctor c) s =
       if decide (d <= 5000)
       then finish_oneR (oneR_ctor_bind c
              (claimed 5000 (oneR_ctor_key c) s,
               OneR v (moved_from (moved_from (oneR_ctor_key c)))))
       else (Throw LockTimeout, timed_out 5000 (oneR_ctor_key c) s)).
  { intros c v Ho Hv Hn. rewrite (construct_oneR_run c s v Hv). cbv zeta.
    rewrite decide_False, Hm, (oneR_default_timeout c Ho) by assumption.
    rewrite acquired_Held by reflexivity.
    destruct (decide (d <= 5000)) as [Hd|Hd].
    - now rewrite bool_decide_eq_true_2.
    - now rewrite bool_decide_eq_false_2. }
  split; [exact H1|]. split.
  { intros c this Ho Hn. rewrite one_init_run. cbv zeta.
    rewrite decide_False, Hm, (one_init_default_timeout c Ho) by assumption.
    rewrite acquired_Held by reflexivity.
    destruct (decide (d <= 300000000)) as [Hd|Hd].
    - now rewrite bool_decide_eq_true_2.
    - now rewrite bool_decide_eq_false_2. }
  split; [exact H3|]. split.
  { intros c this Ho Hn. rewrite oneR_init_run. cbv zeta.
    rewrite decide_False, Hm, (oneR_init_default_timeout c Ho) by assumption.
    rewrite acquired_Held by reflexivity.
    destruct (decide (d <= 5000)) as [Hd|Hd].
    - now rewrite bool_decide_eq_true_2.
    - now rewrite bool_decide_eq_false_2. }
  intros [Hlo Hhi]. split.
  - intros c Ho Hn. rewrite (H1 c Ho Hn), decide_True by assumption.
    destruct (one_ctor_bind c _) as [r [s2 h2]] eqn:Hb.
    apply one_ctor_bind_frame in Hb as (Hl & _ & [->|(-> & _)]); simpl;
      (split; [discriminate|exact Hl]).
  - intros c v Ho Hv Hn. rewrite (H3 c v Ho Hv Hn), decide_False by lia.
    unfold timed_out. rewrite Hm. reflexivity.
Qed.

(** * Further facts about the code *)

(** ** The registry by itself: [add], [verified], [erase] *)

(** After [add(k)], [verified(x)] answers [true] exactly for [k] and for
    the keys that were in the vector before. *)
Theorem verified_after_add (k x : K) (s : store) :
  fst (verified x (snd (add k s))) = Ret (bool_decide (x = k \/ x ∈ om_list s)).
Proof.
  rewrite verified_run. simpl. f_equal. apply bool_decide_ext.
  rewrite elem_of_app, list_elem_of_singleton. tauto.
Qed.

(** After [erase(k)], [verified(x)] answers [true] exactly for the keys
    other than [k] that were in the vector before; in particular
    [verified(k)] is [false] however often [k] had been added. *)
Theorem verified_after_erase (k x : K) (s : store) :
  fst (verified x (snd (erase k s))) = Ret (bool_decide (x <> k /\ x ∈ om_list s)).
Proof.
  rewrite verified_run. simpl. f_equal. apply bool_decide_ext.
  apply std_remove_elem.
Qed.

(** [erase] of a key that is not in the vector leaves the vector as it
    is, the empty vector included; so erasing a key a second time
    changes nothing more. *)
Theorem erase_absent_key (k : K) (s : store) :
  k ∉ om_list s ->
  om_list (snd (erase k s)) = om_list s
  /\ om_list (snd (erase k (snd (erase k s)))) = om_list (snd (erase k s)).
Proof.
  intros Hn. simpl. split.
  - now apply std_remove_id.
  - apply std_remove_id, std_remove_not_elem.
Qed.

(** [add] checks nothing: it appends its key at the end whatever the
    vector holds, so adding a key that is already there leaves the
    vector with that key twice. *)
Theorem add_appends_unchecked (k : K) (s : store) :
  om_list (snd (add k s)) = om_list s ++ [k]
  /\ (k ∈ om_list s -> ~ NoDup (om_list (snd (add k s)))).
Proof.
  simpl. split; [reflexivity|].
  intros Hin Hnd. apply NoDup_app in Hnd as (_ & Hdis & _).
  apply (Hdis k Hin). apply list_elem_of_here.
Qed.

(** [add] of a key that is not in the vector followed by [erase] of it
    gives the vector back, entries and order. *)
Theorem add_erase_round_trip (k : K) (s : store) :
  k ∉ om_list s ->
  om_list (snd (erase k (snd (add k s)))) = om_list s.
Proof. intros Hn. simpl. now apply std_remove_snoc. Qed.

(** ** What a call does after its claim *)

Lemma one_ctor_bind_alloc (c : one_ctor_call) (i : T_init K CArgs) (sh : store * one) :
  one_ctor_alloc c = Some i ->
  one_ctor_bind c sh = (ptr <- on_fst (new_T i) ;; one_set_base (retain ptr)) sh.
Proof. destruct c; simpl; intros [= <-]; reflexivity. Qed.

Lemma one_ctor_bind_package (c : one_ctor_call) (s : store) (this : one) :
  one_ctor_alloc c = None ->
  exists d t, c = OnePackage d (one_ctor_key c) t /\
    one_ctor_bind c (s, this) = (Ret tt, (s, One (one_data this) (points_to (package d)))).
Proof. destruct c; simpl; try discriminate. intros _. eauto. Qed.

Lemma one_init_bind_alloc (c : one_init_call) (i : T_init K CArgs) (sh : store * one) :
  one_init_alloc c = Some i ->
  one_init_bind c sh =
    (ptr <- on_fst (new_T i) ;; one_set_base (retain ptr) ;;; ret true) sh.
Proof. destruct c; simpl; intros [= <-]; reflexivity. Qed.

Lemma one_init_bind_package (c : one_init_call) (s : store) (this : one) :
  one_init_alloc c = None ->
  exists d t, c = InitPackage d (one_init_key c) t /\
    one_init_bind c (s, this) = (Ret true, (s, One (one_data this) (points_to (package d)))).
Proof. destruct c; simpl; try discriminate. intros _. eauto. Qed.

(** The allocating step, run. *)
Lemma allocate_run (i : T_init K CArgs) (s : store) (this : one) :
  (ptr <- on_fst (new_T i) ;; one_set_base (retain ptr)) (s, this) =
    match T_ctor i with
    | None => (Throw T_exception, (s, this))
    | Some v =>
        (Ret tt,
         (Store (om_list s) (om_mtx s) (<[fresh (dom (heap s)) := v]> (heap s))
                (trace s ++ [EvNew (fresh (dom (heap s)))]),
          One (one_data this) (points_to (retain (fresh (dom (heap s)))))))
    end.
Proof.
  unfold bind, on_fst, new_T, one_set_base, modify. simpl.
  destruct (T_ctor i); reflexivity.
Qed.

Lemma fresh_not_allocated (s : store) : heap s !! fresh (dom (heap s)) = None.
Proof. apply not_elem_of_dom, is_fresh. Qed.

(** Everything a construction that returned has done. *)
Lemma construct_one_success (c : one_ctor_call) (s s1 : store) (h : one) :
  construct_one (one_ctor c) s = (Ret h, s1) ->
  (one_ctor_key c ∉ om_list s)
  /\ lock_within (one_ctor_timeout c) (om_mtx s) = true
  /\ one_data h = moved_from (moved_from (one_ctor_key c))
  /\ om_list s1 = om_list s ++ [moved_from (one_ctor_key c)]
  /\ om_mtx s1 = Free
  /\ match one_ctor_alloc c with
     | Some i =>
         exists v, T_ctor i = Some v
           /\ one_base h = points_to (retain (fresh (dom (heap s))))
           /\ heap s1 = <[fresh (dom (heap s)) := v]> (heap s)
           /\ trace s1 = trace s ++ [EvVerified (one_ctor_key c);
                                     EvTryLockFor (one_ctor_timeout c);
                                     EvAdd (moved_from (one_ctor_key c)); EvUnlock;
                                     EvNew (fresh (dom (heap s)))]
     | None =>
         exists d, one_base h = points_to (package d)
           /\ (exists t, c = OnePackage d (one_ctor_key c) t)
           /\ heap s1 = heap s
           /\ trace s1 = trace s ++ [EvVerified (one_ctor_key c);
                                     EvTryLockFor (one_ctor_timeout c);
                                     EvAdd (moved_from (one_ctor_key c)); EvUnlock]
     end.
Proof.
  intros Hc. apply construct_one_Ret in Hc as (Hn & Hl & Hb).
  split; [exact Hn|]. split; [now apply acquired_lock_within|].
  destruct (one_ctor_alloc c) as [i|] eqn:Ha.
  - rewrite (one_ctor_bind_alloc c i _ Ha), allocate_run in Hb.
    destruct (T_ctor i) as [v|]; [|discriminate].
    injection Hb as <- <-. simpl.
    split; [reflexivity|]. split; [reflexivity|]. split; [reflexivity|].
    exists v. split; [reflexivity|]. split; [reflexivity|]. split; [reflexivity|].
    now rewrite <- (app_assoc (trace s)).
  - destruct (one_ctor_bind_package c
                (claimed (one_ctor_timeout c) (one_ctor_key c) s)
                (One (moved_from (moved_from (one_ctor_key c))) indeterminate) Ha) as (d & t & Hcd & Hrun).
    rewrite Hrun in Hb. injection Hb as <- <-. simpl.
    split; [reflexivity|]. split; [reflexivity|]. split; [reflexivity|].
    exists d. split; [reflexivity|]. split; [eauto|]. split; reflexivity.
Qed.

(** ** Reaching the instance *)

(** After an owning construction returned, [get()] gives an address that
    was not allocated before and now holds the value the constructor of
    [T] built, every other instance being as it was.  After a borrowing
    construction it gives the caller's instance, and nothing was
    allocated. *)
Theorem get_after_construction (c : one_ctor_call) (s s1 : store) (h : one) :
  construct_one (one_ctor c) s = (Ret h, s1) ->
  match one_ctor_alloc c with
  | Some i =>
      exists p v, one_get h = Ret p /\ T_ctor i = Some v
        /\ heap s !! p = None /\ heap s1 !! p = Some v
        /\ forall q, q <> p -> heap s1 !! q = heap s !! q
  | None =>
      exists d t, c = OnePackage d (one_ctor_key c) t
        /\ one_get h = Ret d /\ heap s1 = heap s
  end.
Proof.
  intros Hc. apply construct_one_success in Hc as (_ & _ & _ & _ & _ & Hc).
  destruct (one_ctor_alloc c) as [i|].
  - destruct Hc as (v & Hv & Hb & Hh & _).
    exists (fresh (dom (heap s))), v. unfold one_get. rewrite Hb, Hh. simpl.
    split; [reflexivity|]. split; [exact Hv|].
    split; [apply fresh_not_allocated|].
    split; [apply lookup_insert_eq|].
    intros q Hq. now apply lookup_insert_ne.
  - destruct Hc as (d & Hb & (t & Hcd) & Hh & _).
    exists d, t. unfold one_get. rewrite Hb. now repeat split.
Qed.

(** A handle that was only default-constructed has nothing to reach:
    [get()] on it reads a pointer that was never assigned. *)
Lemma get_unbound (s : store) :
  exists h, construct_one one_ctor_default s = (Ret h, s) /\ one_get h = Undefined.
Proof. eexists. split; reflexivity. Qed.

(** ** The order of a construction's steps *)

(** In a construction that returned, the four steps of the claim come
    first and the instance is allocated last, after the mutex was
    released; a borrowing construction allocates nothing.  The entry
    added is the key as the membership test's move left it. *)
Theorem construction_log (c : one_ctor_call) (s s1 : store) (h : one) :
  construct_one (one_ctor c) s = (Ret h, s1) ->
  trace s1 =
    trace s ++ [EvVerified (one_ctor_key c); EvTryLockFor (one_ctor_timeout c);
                EvAdd (moved_from (one_ctor_key c)); EvUnlock]
            ++ match one_base h with
               | points_to (retain p) => [EvNew p]
               | _ => []
               end.
Proof.
  intros Hc. apply construct_one_success in Hc as (_ & _ & _ & _ & _ & Hc).
  destruct (one_ctor_alloc c) as [i|].
  - destruct Hc as (v & _ & -> & _ & ->). reflexivity.
  - destruct Hc as (d & -> & _ & _ & ->). now rewrite app_nil_r.
Qed.

(** ** Construction followed by destruction *)

(** Destroying a handle right after its construction returned brings
    back the free store the construction started from and leaves the
    mutex free: an owning handle's instance is deleted, a borrowing
    handle's instance was never the handle's to delete.  The vector
    loses every entry equal to the handle's stored key; it is the
    vector the construction started from when moving leaves the key
    unchanged. *)
Theorem construct_destroy_round_trip (c : one_ctor_call) (s s1 : store) (h : one) :
  construct_one (one_ctor c) s = (Ret h, s1) ->
  exists s2, destroy_one h s1 = (Ret tt, s2)
    /\ om_list s2 = std_remove (moved_from (moved_from (one_ctor_key c)))
                       (om_list s ++ [moved_from (one_ctor_key c)])
    /\ (moved_from (one_ctor_key c) = one_ctor_key c -> om_list s2 = om_list s)
    /\ heap s2 = heap s /\ om_mtx s2 = Free.
Proof.
  intros Hc. apply construct_one_success in Hc as (Hn & _ & Hd & Hl & Hm & Hc).
  rewrite destroy_one_run, Hm, Hd, Hl. cbv zeta.
  assert (Hsame : moved_from (one_ctor_key c) = one_ctor_key c ->
            std_remove (moved_from (moved_from (one_ctor_key c)))
              (om_list s ++ [moved_from (one_ctor_key c)]) = om_list s).
  { intros He. rewrite !He. now apply std_remove_snoc. }
  destruct (one_ctor_alloc c) as [i|].
  - destruct Hc as (v & _ & -> & Hh & _). rewrite Hh, lookup_insert_eq.
    eexists. split; [reflexivity|]. simpl.
    split; [reflexivity|]. split; [exact Hsame|]. split; [|reflexivity].
    apply delete_insert_id, fresh_not_allocated.
  - destruct Hc as (d & -> & _ & Hh & _).
    eexists. split; [reflexivity|]. simpl.
    split; [reflexivity|]. split; [exact Hsame|]. now rewrite Hh.
Qed.

(** ** Failures *)

(** The binding step of a construction either returns or throws what
    [T] threw, having changed nothing. *)
Lemma finish_one_Throw (c : one_ctor_call) (s s' : store) (this : one) (e : exn) :
  finish_one (one_ctor_bind c (s, this)) = (Throw e, s') ->
  e = T_exception /\ s' = s /\ T_throws (one_ctor_alloc c) = true.
Proof.
  destruct (one_ctor_alloc c) as [i|] eqn:Ha.
  - rewrite (one_ctor_bind_alloc c i _ Ha), allocate_run. simpl.
    destruct (T_ctor i) eqn:Hi; simpl; [discriminate|].
    intros [= <- <-]. split; [reflexivity|]. split; [reflexivity|].
    reflexivity.
  - destruct (one_ctor_bind_package c s this Ha) as (d & t & _ & ->).
    discriminate.
Qed.

(** A construction that throws, whatever it throws, and an [init] that
    returns [false], whatever made it fail, have allocated nothing: the
    free store is the one they started from, and a failed [init] leaves
    the handle's [base] as it was. *)
Theorem failure_allocates_nothing (s : store) :
  (forall c e s', construct_one (one_ctor c) s = (Throw e, s') -> heap s' = heap s)
  /\ (forall c this s' this',
        one_init c (s, this) = (Ret false, (s', this')) ->
        heap s' = heap s /\ one_base this' = one_base this).
Proof.
  split.
  - intros c e s'. rewrite construct_one_run. cbv zeta.
    destruct (decide (one_ctor_key c ∈ om_list s)); [now intros [= <- <-]|].
    destruct (acquired _ _) as [[|]|]; [|now intros [= <- <-]|discriminate].
    intros Hf. now apply finish_one_Throw in Hf as (_ & -> & _).
  - intros c this s' this'. rewrite one_init_run. cbv zeta.
    assert (Hc : forall sh, caught (one_init_bind c sh) = (Ret false, (s', this')) ->
                            sh = (s', this')).
    { intros [s1 h1] Hb. destruct (one_init_bind c (s1, h1)) as [r [s2 h2]] eqn:Hrun.
      apply one_init_bind_frame in Hrun as (_ & _ & [->|(-> & -> & ->)]);
        simpl in Hb; [discriminate|]. now injection Hb as <- <-. }
    destruct (decide (one_init_key c ∈ om_list s)); [now intros [= <- <-]|].
    destruct (acquired _ _) as [[|]|]; [|now intros [= <- <-]|discriminate].
    intros Hf. apply Hc in Hf. now injection Hf as <- <-.
Qed.

(** When the constructor of [T] throws inside a constructor of [one],
    the claim has already been made: the entry the claim added (the key
    as the membership test's move left it) is in the vector and no
    handle exists whose destructor would erase it.  From then on every
    construction with a key equal to that entry throws DuplicateKey and
    every [init] with it returns [false]; this is the key itself when
    moving leaves it unchanged. *)
Theorem constructor_throw_strands_key (c : one_ctor_call) (s s' : store) :
  construct_one (one_ctor c) s = (Throw T_exception, s') ->
  om_list s' = om_list s ++ [moved_from (one_ctor_key c)]
  /\ (forall c', one_ctor_key c' = moved_from (one_ctor_key c) ->
        fst (construct_one (one_ctor c') s') = Throw DuplicateKey)
  /\ (forall c' this, one_init_key c' = moved_from (one_ctor_key c) ->
        fst (one_init c' (s', this)) = Ret false).
Proof.
  intros Hc.
  assert (Hl : om_list s' = om_list s ++ [moved_from (one_ctor_key c)]).
  { revert Hc. rewrite construct_one_run. cbv zeta.
    destruct (decide (one_ctor_key c ∈ om_list s)); [discriminate|].
    destruct (acquired _ _) as [[|]|]; [|discriminate|discriminate].
    intros Hf. now apply finish_one_Throw in Hf as (_ & -> & _). }
  assert (Hin : moved_from (one_ctor_key c) ∈ om_list s').
  { rewrite Hl. apply elem_of_app. right. apply list_elem_of_here. }
  split; [exact Hl|]. split.
  - intros c' Hk. rewrite construct_one_run. cbv zeta.
    now rewrite Hk, decide_True.
  - intros c' this Hk. rewrite one_init_duplicate; [reflexivity|]. now rewrite Hk.
Qed.

(** ** The mutex *)

(** No operation leaves the mutex owned: from a state in which the
    caller does not own it, every constructor and [init] of either kind,
    returning or throwing, and every destructor that returns, ends with
    the mutex not owned by the caller. *)
Theorem mutex_never_left_owned (a : action) (s : store) :
  om_mtx s <> Owned ->
  (forall this, a = DeleteOne this -> fst (destroy_one this s) = Ret tt) ->
  om_mtx (step a s) <> Owned.
Proof.
  intros Hm Hdel.
  assert (Hheld : forall t k, om_mtx (timed_out t k s) <> Owned).
  { intros t k. simpl. destruct (om_mtx s); [discriminate|congruence|discriminate]. }
  assert (Hclaimed : forall t k, om_mtx (claimed t k s) = Free) by reflexivity.
  destruct a as [c| |this c|this|c| |this c|this]; simpl.
  - rewrite construct_one_run. cbv zeta.
    assert (Hf : om_mtx (snd (finish_one (one_ctor_bind c
                   (claimed (one_ctor_timeout c) (one_ctor_key c) s,
                    One (moved_from (moved_from (one_ctor_key c))) indeterminate)))) <> Owned).
    { destruct (one_ctor_bind c _) as [r [s2 h2]] eqn:Hb.
      apply one_ctor_bind_frame in Hb as (_ & Hm2 & _).
      destruct r; simpl; rewrite Hm2; discriminate. }
    destruct (decide (one_ctor_key c ∈ om_list s)); [exact Hm|].
    destruct (acquired _ _) as [[|]|]; [exact Hf|apply Hheld|exact Hm].
  - exact Hm.
  - rewrite one_init_run. cbv zeta.
    assert (Hf : om_mtx (fst (snd (caught (one_init_bind c
                   (claimed (one_init_timeout c) (one_init_key c) s,
                    One (moved_from (moved_from (one_init_key c))) (one_base this)))))) <> Owned).
    { destruct (one_init_bind c _) as [r [s2 h2]] eqn:Hb.
      apply one_init_bind_frame in Hb as (_ & Hm2 & _).
      destruct r; simpl; rewrite Hm2; discriminate. }
    destruct (decide (one_init_key c ∈ om_list s)); [exact Hm|].
    destruct (acquired _ _) as [[|]|]; [exact Hf|apply Hheld|exact Hm].
  - specialize (Hdel this eq_refl). revert Hdel. rewrite destroy_one_run.
    destruct (om_mtx s); [|congruence|].
    all: cbv zeta; destruct (one_base this) as [|[p|o]]; simpl;
      try destruct (heap s !! p); simpl; discriminate.
  - unfold construct_oneR. destruct (T_ctor T_default) as [v|] eqn:Hv; [|exact Hm].
    pose proof (construct_oneR_run c s v Hv) as Hrun. cbv zeta in Hrun.
    unfold construct_oneR in Hrun. rewrite Hv in Hrun. rewrite Hrun.
    assert (Hf : om_mtx (snd (finish_oneR (oneR_ctor_bind c
                   (claimed (oneR_ctor_timeout c) (oneR_ctor_key c) s,
                    OneR v (moved_from (moved_from (oneR_ctor_key c))))))) <> Owned).
    { destruct (oneR_ctor_bind c _) as [r [s2 h2]] eqn:Hb.
      apply oneR_ctor_bind_frame in Hb as (-> & _).
      destruct r; simpl; discriminate. }
    destruct (decide (oneR_ctor_key c ∈ om_list s)); [exact Hm|].
    destruct (acquired _ _) as [[|]|]; [exact Hf|apply Hheld|exact Hm].
  - unfold construct_oneR. destruct (T_ctor T_default); exact Hm.
  - rewrite oneR_init_run. cbv zeta.
    assert (Hf : om_mtx (fst (snd (caught (oneR_init_bind c
                   (claimed (oneR_init_timeout c) (oneR_init_key c) s,
                    OneR (oneR_obj this) (moved_from (moved_from (oneR_init_key c)))))))) <> Owned).
    { destruct (oneR_init_bind c _) as [r [s2 h2]] eqn:Hb.
      apply oneR_init_bind_frame in Hb as (-> & _).
      destruct r; simpl; discriminate. }
    destruct (decide (oneR_init_key c ∈ om_list s)); [exact Hm|].
    destruct (acquired _ _) as [[|]|]; [exact Hf|apply Hheld|exact Hm].
  - rewrite destroy_oneR_run. destruct (om_mtx s); [|congruence|]; discriminate.
Qed.

(** ** When [init] succeeds *)

Lemma one_init_bind_outcome (c : one_init_call) (sh : store * one) :
  fst (caught (one_init_bind c sh)) = Ret (negb (T_throws (one_init_alloc c))).
Proof.
  destruct sh as [s this].
  destruct (one_init_alloc c) as [i|] eqn:Ha.
  - rewrite (one_init_bind_alloc c i _ Ha).
    unfold bind, on_fst, new_T, one_set_base, modify, ret. simpl.
    destruct (T_ctor i); reflexivity.
  - destruct (one_init_bind_package c s this Ha) as (d & t & _ & ->). reflexivity.
Qed.

Lemma oneR_init_bind_outcome (c : oneR_init_call) (sh : store * oneR) :
  fst (caught (oneR_init_bind c sh)) = Ret (negb (T_throws (oneR_init_alloc c))).
Proof.
  destruct sh as [s this].
  destruct c; simpl; [reflexivity|].
  unfold bind, on_fst, make_T, oneR_set_obj, modify, ret. simpl.
  destruct (T_ctor _); reflexivity.
Qed.

(** [init], of either handle kind, returns [true] exactly when the key
    is not in the vector, the timeout is representable and the mutex is
    got within it, and the
    constructor of [T] the call runs, if any, does not throw. *)
Theorem init_true_iff (s : store) :
  (forall c this,
      fst (one_init c (s, this)) = Ret true <->
      (one_init_key c ∉ om_list s)
      /\ lock_within (one_init_timeout c) (om_mtx s) = true
      /\ T_throws (one_init_alloc c) = false)
  /\ (forall c this,
      fst (oneR_init c (s, this)) = Ret true <->
      (oneR_init_key c ∉ om_list s)
      /\ lock_within (oneR_init_timeout c) (om_mtx s) = true
      /\ T_throws (oneR_init_alloc c) = false).
Proof.
  split; intros c this.
  - rewrite one_init_run. cbv zeta.
    destruct (decide (one_init_key c ∈ om_list s)) as [Hin|Hn].
    { simpl. split; [discriminate | intros (Hn & _); contradiction]. }
    pose proof (acquired_lock_within (one_init_timeout c) (om_mtx s)) as Hal.
    destruct (acquired _ _) as [[|]|].
    + rewrite one_init_bind_outcome. destruct Hal as [Hal _].
      rewrite (Hal eq_refl). destruct (T_throws _); simpl; intuition congruence.
    + simpl. split; [discriminate|]. intros (_ & Hl & _).
      apply Hal in Hl. discriminate.
    + simpl. split; [discriminate|]. intros (_ & Hl & _).
      apply Hal in Hl. discriminate.
  - rewrite oneR_init_run. cbv zeta.
    destruct (decide (oneR_init_key c ∈ om_list s)) as [Hin|Hn].
    { simpl. split; [discriminate | intros (Hn & _); contradiction]. }
    pose proof (acquired_lock_within (oneR_init_timeout c) (om_mtx s)) as Hal.
    destruct (acquired _ _) as [[|]|].
    + rewrite oneR_init_bind_outcome. destruct Hal as [Hal _].
      rewrite (Hal eq_refl). destruct (T_throws _); simpl; intuition congruence.
    + simpl. split; [discriminate|]. intros (_ & Hl & _).
      apply Hal in Hl. discriminate.
    + simpl. split; [discriminate|]. intros (_ & Hl & _).
      apply Hal in Hl. discriminate.
Qed.

(** Everything an [init] that returned [true] has done. *)
Lemma one_init_success (c : one_init_call) (s s1 : store) (this h1 : one) :
  one_init c (s, this) = (Ret true, (s1, h1)) ->
  (one_init_key c ∉ om_list s)
  /\ one_data h1 = moved_from (moved_from (one_init_key c))
  /\ om_list s1 = om_list s ++ [moved_from (one_init_key c)]
  /\ om_mtx s1 = Free
  /\ match one_init_alloc c with
     | Some i =>
         exists v, T_ctor i = Some v
           /\ one_base h1 = points_to (retain (fresh (dom (heap s))))
           /\ heap s1 = <[fresh (dom (heap s)) := v]> (heap s)
     | None =>
         exists d, one_base h1 = points_to (package d) /\ heap s1 = heap s
           /\ exists t, c = InitPackage d (one_init_key c) t
     end.
Proof.
  rewrite one_init_run. cbv zeta.
  destruct (decide (one_init_key c ∈ om_list s)) as [Hin|Hn]; [discriminate|].
  assert (Hb : caught (one_init_bind c
                 (claimed (one_init_timeout c) (one_init_key c) s,
                  One (moved_from (moved_from (one_init_key c))) (one_base this))) = (Ret true, (s1, h1)) ->
    one_data h1 = moved_from (moved_from (one_init_key c))
    /\ om_list s1 = om_list s ++ [moved_from (one_init_key c)]
    /\ om_mtx s1 = Free
    /\ match one_init_alloc c with
       | Some i =>
           exists v, T_ctor i = Some v
             /\ one_base h1 = points_to (retain (fresh (dom (heap s))))
             /\ heap s1 = <[fresh (dom (heap s)) := v]> (heap s)
       | None =>
           exists d, one_base h1 = points_to (package d) /\ heap s1 = heap s
             /\ exists t, c = InitPackage d (one_init_key c) t
       end).
  { destruct (one_init_alloc c) as [i|] eqn:Ha.
    - rewrite (one_init_bind_alloc c i _ Ha).
      unfold bind, on_fst, new_T, one_set_base, modify, ret. simpl.
      destruct (T_ctor i) as [v|]; simpl; [|discriminate].
      intros [= <- <-]. simpl. repeat split. eauto.
    - destruct (one_init_bind_package c
                  (claimed (one_init_timeout c) (one_init_key c) s)
                  (One (moved_from (moved_from (one_init_key c))) (one_base this)) Ha) as (d & t & Hcd & ->).
      simpl. intros [= <- <-]. simpl. repeat split. eauto. }
  destruct (acquired _ _) as [[|]|]; [auto|discriminate|discriminate].
Qed.

(** ** Initialising a handle a second time *)

(** When [init] returns [true] on a handle and a second [init] with
    another key returns [true] on the same handle, destroying the handle
    deletes the second instance only: the free store is back to what it
    was after the first [init], so the first instance stays allocated
    with no handle left to release it.  When moving leaves the second
    key unchanged, the vector too is back to what it was after the first
    [init], with the first claim's entry still in it. *)
Theorem reinit_strands_first_claim (c1 c2 : one_init_call)
    (s s1 s2 : store) (this h1 h2 : one) :
  one_init c1 (s, this) = (Ret true, (s1, h1)) ->
  one_init c2 (s1, h1) = (Ret true, (s2, h2)) ->
  exists s3, destroy_one h2 s2 = (Ret tt, s3)
    /\ heap s3 = heap s1
    /\ match one_init_alloc c1 with
       | Some _ => exists p, one_get h1 = Ret p /\ is_Some (heap s3 !! p)
       | None => True
       end
    /\ (moved_from (one_init_key c2) = one_init_key c2 ->
          om_list s3 = om_list s1
          /\ moved_from (one_init_key c1) ∈ om_list s3).
Proof.
  intros H1 H2.
  apply one_init_success in H1 as (_ & _ & Hl1 & _ & Ha1).
  apply one_init_success in H2 as (Hn2 & Hd2 & Hl2 & Hm2 & Ha2).
  assert (Hdes : exists s3, destroy_one h2 s2 = (Ret tt, s3)
            /\ om_list s3 = std_remove (moved_from (moved_from (one_init_key c2)))
                               (om_list s1 ++ [moved_from (one_init_key c2)])
            /\ heap s3 = heap s1).
  { rewrite destroy_one_run, Hm2, Hd2, Hl2. cbv zeta.
    destruct (one_init_alloc c2) as [i|].
    - destruct Ha2 as (v & _ & -> & Hh). rewrite Hh, lookup_insert_eq.
      eexists. split; [reflexivity|]. simpl. split; [reflexivity|].
      apply delete_insert_id, fresh_not_allocated.
    - destruct Ha2 as (d & -> & Hh & _).
      eexists. split; [reflexivity|]. simpl. now rewrite Hh. }
  destruct Hdes as (s3 & Hdes & Hl3 & Hh3).
  exists s3. split; [exact Hdes|]. split; [exact Hh3|]. split.
  - destruct (one_init_alloc c1) as [i|]; [|exact I].
    destruct Ha1 as (v & _ & Hb & Hh).
    exists (fresh (dom (heap s))). unfold one_get. rewrite Hb. simpl.
    split; [reflexivity|]. rewrite Hh3, Hh, lookup_insert_eq. eauto.
  - intros He. rewrite !He in Hl3. rewrite std_remove_snoc in Hl3 by assumption.
    split; [exact Hl3|].
    rewrite Hl3, Hl1. apply elem_of_app. right. apply list_elem_of_here.
Qed.

(** ** What an operation does to the vector *)

(** A construction or an [init] leaves the vector as it is or appends
    its entry, the key as one move left it; a destruction erases the
    handle's stored key or, when it cannot lock, leaves the vector as it
    is. *)
Lemma step_list_cases (a : action) (s : store) :
  match a with
  | DefaultOne | DefaultOneR => om_list (step a s) = om_list s
  | DeleteOne this =>
      om_list (step a s) = om_list s
      \/ om_list (step a s) = std_remove (one_data this) (om_list s)
  | DeleteOneR this =>
      om_list (step a s) = om_list s
      \/ om_list (step a s) = std_remove (oneR_data this) (om_list s)
  | _ =>
      om_list (step a s) = om_list s
      \/ exists e, action_entry a = Some e
                   /\ om_list (step a s) = om_list s ++ [e]
  end.
Proof.
  destruct a as [c| |this c|this|c| |this c|this]; simpl.
  - rewrite construct_one_run. cbv zeta.
    assert (Hf : om_list (snd (finish_one (one_ctor_bind c
                   (claimed (one_ctor_timeout c) (one_ctor_key c) s,
                    One (moved_from (moved_from (one_ctor_key c))) indeterminate))))
                 = om_list s ++ [moved_from (one_ctor_key c)]).
    { destruct (one_ctor_bind c _) as [r [s2 h2]] eqn:Hb.
      apply one_ctor_bind_frame in Hb as (Hl & _ & _).
      destruct r; simpl; now rewrite Hl. }
    destruct (decide (one_ctor_key c ∈ om_list s)); [now left|].
    destruct (acquired _ _) as [[|]|]; [right; eauto|now left|now left].
  - reflexivity.
  - rewrite one_init_run. cbv zeta.
    assert (Hf : om_list (fst (snd (caught (one_init_bind c
                   (claimed (one_init_timeout c) (one_init_key c) s,
                    One (moved_from (moved_from (one_init_key c))) (one_base this))))))
                 = om_list s ++ [moved_from (one_init_key c)]).
    { destruct (one_init_bind c _) as [r [s2 h2]] eqn:Hb.
      apply one_init_bind_frame in Hb as (Hl & _ & _).
      destruct r; simpl; now rewrite Hl. }
    destruct (decide (one_init_key c ∈ om_list s)); [now left|].
    destruct (acquired _ _) as [[|]|]; [right; eauto|now left|now left].
  - rewrite destroy_one_run.
    destruct (om_mtx s); [|now left|].
    all: cbv zeta; destruct (one_base this) as [|[p|o]]; simpl;
      try destruct (heap s !! p); simpl; now right.
  - unfold construct_oneR. destruct (T_ctor T_default) as [v|] eqn:Hv; [|now left].
    pose proof (construct_oneR_run c s v Hv) as Hrun. cbv zeta in Hrun.
    unfold construct_oneR in Hrun. rewrite Hv in Hrun. rewrite Hrun.
    assert (Hf : om_list (snd (finish_oneR (oneR_ctor_bind c
                   (claimed (oneR_ctor_timeout c) (oneR_ctor_key c) s,
                    OneR v (moved_from (moved_from (oneR_ctor_key c)))))))
                 = om_list s ++ [moved_from (oneR_ctor_key c)]).
    { destruct (oneR_ctor_bind c _) as [r [s2 h2]] eqn:Hb.
      apply oneR_ctor_bind_frame in Hb as (-> & _).
      destruct r; reflexivity. }
    destruct (decide (oneR_ctor_key c ∈ om_list s)); [now left|].
    destruct (acquired _ _) as [[|]|]; [right; eauto|now left|now left].
  - unfold construct_oneR. destruct (T_ctor T_default); reflexivity.
  - rewrite oneR_init_run. cbv zeta.
    assert (Hf : om_list (fst (snd (caught (oneR_init_bind c
                   (claimed (oneR_init_timeout c) (oneR_init_key c) s,
                    OneR (oneR_obj this) (moved_from (moved_from (oneR_init_key c))))))))
                 = om_list s ++ [moved_from (oneR_init_key c)]).
    { destruct (oneR_init_bind c _) as [r [s2 h2]] eqn:Hb.
      apply oneR_init_bind_frame in Hb as (-> & _).
      destruct r; reflexivity. }
    destruct (decide (oneR_init_key c ∈ om_list s)); [now left|].
    destruct (acquired _ _) as [[|]|]; [right; eauto|now left|now left].
  - rewrite destroy_oneR_run. destruct (om_mtx s); simpl; [now right|now left|now right].
Qed.

(** No operation touches another entry: whether a value other than the
    operation's own entry (for a constructor or [init] the key as one
    move left it, for a destructor the handle's stored key) is in the
    vector is the same before and after any constructor, [init] or
    destructor of either kind, whatever the outcome. *)
Theorem other_keys_untouched (a : action) (s : store) (x : K) :
  action_entry a <> Some x ->
  (x ∈ om_list (step a s) <-> x ∈ om_list s).
Proof.
  intros Hx. pose proof (step_list_cases a s) as Hc.
  assert (Happ : forall k, action_entry a = Some k ->
            om_list (step a s) = om_list s ++ [k] ->
            (x ∈ om_list (step a s) <-> x ∈ om_list s)).
  { intros k Hk ->. rewrite elem_of_app, list_elem_of_singleton.
    split; [intros [Hin| ->]; [exact Hin|congruence] | now left]. }
  assert (Hrem : forall k, action_entry a = Some k ->
            om_list (step a s) = std_remove k (om_list s) ->
            (x ∈ om_list (step a s) <-> x ∈ om_list s)).
  { intros k Hk ->. rewrite std_remove_elem.
    split; [now intros [_ Hin] | intros Hin; split; [congruence|exact Hin]]. }
  destruct a as [c| |this c|this|c| |this c|this];
    try (destruct Hc as [->|(k & Hk & Hl)]; [reflexivity|now apply (Happ k)]);
    try (now rewrite Hc);
    try (destruct Hc as [->|Hl]; [reflexivity|eapply Hrem; [reflexivity|exact Hl]]).
Qed.

(** ** The inline handle and the free store *)

(** No operation of [oneR] allocates or deletes on the free store: its
    instance is a member of the handle. *)
Theorem oneR_leaves_free_store (s : store) :
  (forall c, heap (step (NewOneR c) s) = heap s)
  /\ heap (step DefaultOneR s) = heap s
  /\ (forall this c, heap (step (InitOneR this c) s) = heap s)
  /\ (forall this, heap (step (DeleteOneR this) s) = heap s).
Proof.
  split; [|split; [|split]]; simpl.
  - intros c. unfold construct_oneR. destruct (T_ctor T_default) as [v|]; [|reflexivity].
    rewrite oneR_ctor_shape. unfold bind. rewrite oneR_entrust_run.
    destruct (decide (oneR_ctor_key c ∈ om_list s)); [reflexivity|].
    destruct (acquired _ _) as [[|]|]; [|reflexivity|reflexivity].
    destruct (oneR_ctor_bind c _) as [r [s2 h2]] eqn:Hb.
    apply oneR_ctor_bind_frame in Hb as (-> & _). now destruct r.
  - unfold construct_oneR. destruct (T_ctor T_default); reflexivity.
  - intros this c. rewrite oneR_init_run. cbv zeta.
    assert (Hf : forall sh, heap (fst (snd (caught (oneR_init_bind c sh)))) = heap (fst sh)).
    { intros [s1 h1]. destruct (oneR_init_bind c (s1, h1)) as [r [s2 h2]] eqn:Hb.
      apply oneR_init_bind_frame in Hb as (-> & _). now destruct r. }
    destruct (decide (oneR_init_key c ∈ om_list s)); [reflexivity|].
    destruct (acquired _ _) as [[|]|]; [apply Hf|reflexivity|reflexivity].
  - intros this. rewrite destroy_oneR_run. now destruct (om_mtx s).
Qed.

(** The inline handle a constructor returned holds the key it was given
    as two moves left it and, as its member, the value the constructor of [T] built from the
    forwarded arguments, or the default-constructed value when the call
    forwards none. *)
Theorem oneR_holds_constructed_value (c : oneR_ctor_call) (s s1 : store) (r : oneR) :
  construct_oneR (oneR_ctor c) s = (Ret r, s1) ->
  oneR_data r = moved_from (moved_from (oneR_ctor_key c))
  /\ T_ctor (default T_default (oneR_ctor_alloc c)) = Some (oneR_obj r).
Proof.
  intros Hc. apply construct_oneR_Ret in Hc as (v & Hv & _ & _ & Hb).
  destruct c as [t k a|k t]; simpl in *.
  - unfold bind, on_fst, make_T, oneR_set_obj, modify in Hb. simpl in Hb.
    destruct (T_ctor (T_from_args a)) as [w|]; [|discriminate].
    now injection Hb as <- <-.
  - unfold ret in Hb. now injection Hb as <- <-.
Qed.

(** ** Uniqueness in programs that destroy only what they constructed *)

Lemma construct_one_keeps_keys (c : one_ctor_call) (s : store) (x : K) :
  x ∈ om_list s -> x ∈ om_list (snd (construct_one (one_ctor c) s)).
Proof.
  intros Hin. pose proof (step_list_cases (NewOne c) s) as Hc. simpl in Hc.
  destruct Hc as [->|(k & _ & ->)]; [exact Hin|].
  apply elem_of_app. now left.
Qed.

Lemma construct_oneR_keeps_keys (c : oneR_ctor_call) (s : store) (x : K) :
  x ∈ om_list s -> x ∈ om_list (snd (construct_oneR (oneR_ctor c) s)).
Proof.
  intros Hin. pose proof (step_list_cases (NewOneR c) s) as Hc. simpl in Hc.
  destruct Hc as [->|(k & _ & ->)]; [exact Hin|].
  apply elem_of_app. now left.
Qed.

Lemma live_keys_new (s s' : store) (live : list handle) (h : handle) :
  live_keys_claimed (s, live) ->
  (handle_key h ∉ om_list s) ->
  om_list s' = om_list s ++ [handle_key h] ->
  live_keys_claimed (s', live ++ [h]).
Proof.
  intros [Hnd Hin] Hn Hl. split; simpl in *.
  - rewrite fmap_app. apply NoDup_app. split; [exact Hnd|]. split.
    + intros x Hx Hx'. apply list_elem_of_singleton in Hx'. subst x.
      apply list_elem_of_fmap in Hx as (h' & Hk & Hh').
      apply Hn. rewrite Hk. now apply Hin.
    + apply NoDup_singleton.
  - intros h' Hh'. rewrite Hl. apply elem_of_app.
    apply elem_of_app in Hh' as [Hh'|Hh'].
    + left. now apply Hin.
    + right. apply list_elem_of_singleton in Hh'. subst h'. apply list_elem_of_here.
Qed.

Lemma live_keys_delete (s s' : store) (live : list handle) (i : nat) (h : handle) :
  live_keys_claimed (s, live) ->
  live !! i = Some h ->
  om_list s' = om_list s \/ om_list s' = std_remove (handle_key h) (om_list s) ->
  live_keys_claimed (s', delete i live).
Proof.
  intros [Hnd Hin] Hi Hl. simpl in *.
  rewrite <- (take_drop_middle live i h Hi) in Hnd, Hin.
  rewrite delete_take_drop.
  rewrite fmap_app, fmap_cons in Hnd.
  apply NoDup_app in Hnd as (Hnd1 & Hdis & Hnd2).
  apply NoDup_cons in Hnd2 as (Hh2 & Hnd2).
  split; simpl.
  - rewrite fmap_app. apply NoDup_app. split; [exact Hnd1|]. split; [|exact Hnd2].
    intros x Hx Hx'. apply (Hdis x Hx). now right.
  - intros h' Hh'.
    assert (Hne : handle_key h' <> handle_key h).
    { apply elem_of_app in Hh' as [Hh'|Hh'].
      - intros Heq. apply (Hdis (handle_key h')).
        + apply list_elem_of_fmap. eauto.
        + rewrite Heq. left.
      - intros Heq. apply Hh2. rewrite <- Heq. apply list_elem_of_fmap. eauto. }
    assert (Hold : handle_key h' ∈ om_list s).
    { apply Hin. apply elem_of_app in Hh' as [Hh'|Hh']; apply elem_of_app.
      - now left.
      - right. now right. }
    destruct Hl as [->| ->]; [exact Hold|].
    apply std_remove_elem. now split.
Qed.

Lemma use_step_live_keys (u : use) (p : store * list handle) :
  (forall x, moved_from x = x) ->
  live_keys_claimed p -> live_keys_claimed (use_step u p).
Proof.
  destruct p as [s live]. intros Hmove Hinv. destruct u as [c|c|i]; simpl.
  - destruct (construct_one (one_ctor c) s) as [[h| |] s'] eqn:Hc.
    + apply construct_one_success in Hc as (Hn & _ & Hd & Hl & _).
      repeat rewrite Hmove in Hd. repeat rewrite Hmove in Hl.
      apply live_keys_new with (s := s); simpl; rewrite ?Hd; assumption.
    + destruct Hinv as [Hnd Hin]. split; [exact Hnd|]. simpl in *.
      intros h' Hh'. replace s' with (snd (construct_one (one_ctor c) s)) by now rewrite Hc.
      apply construct_one_keeps_keys. now apply Hin.
    + destruct Hinv as [Hnd Hin]. split; [exact Hnd|]. simpl in *.
      intros h' Hh'. replace s' with (snd (construct_one (one_ctor c) s)) by now rewrite Hc.
      apply construct_one_keeps_keys. now apply Hin.
  - destruct (construct_oneR (oneR_ctor c) s) as [[r| |] s'] eqn:Hc.
    + apply construct_oneR_Ret in Hc as (v & _ & Hn & _ & Hb).
      apply oneR_ctor_bind_Ret in Hb as (Hd & ->). simpl in Hd.
      repeat rewrite Hmove in Hd.
      apply live_keys_new with (s := s); simpl; rewrite ?Hd; try assumption.
      now rewrite Hmove.
    + destruct Hinv as [Hnd Hin]. split; [exact Hnd|]. simpl in *.
      intros h' Hh'. replace s' with (snd (construct_oneR (oneR_ctor c) s)) by now rewrite Hc.
      apply construct_oneR_keeps_keys. now apply Hin.
    + destruct Hinv as [Hnd Hin]. split; [exact Hnd|]. simpl in *.
      intros h' Hh'. replace s' with (snd (construct_oneR (oneR_ctor c) s)) by now rewrite Hc.
      apply construct_oneR_keeps_keys. now apply Hin.
  - destruct (live !! i) as [[h|r]|] eqn:Hi; [| |exact Hinv].
    + eapply live_keys_delete; [exact Hinv|exact Hi|].
      apply (step_list_cases (DeleteOne h) s).
    + eapply live_keys_delete; [exact Hinv|exact Hi|].
      apply (step_list_cases (DeleteOneR r) s).
Qed.

Lemma use_run_live_keys (l : list use) (p : store * list handle) :
  (forall x, moved_from x = x) ->
  live_keys_claimed p -> live_keys_claimed (use_run l p).
Proof.
  intros Hmove. revert p. induction l as [|u l IH]; intros p Hp; simpl; [exact Hp|].
  apply IH, use_step_live_keys, Hp. exact Hmove.
Qed.

(** For a key type whose moved-from value equals the value moved: in a
    program that, from program start, only constructs handles with keys
    and destroys handles it constructed, one operation after the other,
    no two live handles, of either kind, hold equal keys; and for
    the key of every live handle a constructor of [one] throws
    DuplicateKey, a constructor of [oneR] returns no handle, and [init]
    returns [false]. *)
Theorem constructed_handles_unique (l : list use) :
  (forall x, moved_from x = x) ->
  let p := use_run l (initial, []) in
  NoDup (handle_key <$> snd p)
  /\ forall h, h ∈ snd p ->
       (forall c, one_ctor_key c = handle_key h ->
          fst (construct_one (one_ctor c) (fst p)) = Throw DuplicateKey)
       /\ (forall c r, oneR_ctor_key c = handle_key h ->
          fst (construct_oneR (oneR_ctor c) (fst p)) <> Ret r)
       /\ (forall c this, one_init_key c = handle_key h ->
          fst (one_init c (fst p, this)) = Ret false)
       /\ (forall c this, oneR_init_key c = handle_key h ->
          fst (oneR_init c (fst p, this)) = Ret false).
Proof.
  intros Hmove p.
  assert (Hinv : live_keys_claimed p).
  { apply use_run_live_keys; [exact Hmove|]. split; simpl; [apply NoDup_nil_2|].
    intros h Hh. now apply elem_of_nil in Hh. }
  destruct Hinv as [Hnd Hin]. split; [exact Hnd|].
  intros h Hh. specialize (Hin h Hh).
  split; [|split; [|split]].
  - intros c Hk. rewrite construct_one_run. cbv zeta. now rewrite Hk, decide_True.
  - intros c r Hk. unfold construct_oneR.
    destruct (T_ctor T_default) as [v|] eqn:Hv; [|discriminate].
    pose proof (construct_oneR_run c (fst p) v Hv) as Hrun. cbv zeta in Hrun.
    unfold construct_oneR in Hrun. rewrite Hv in Hrun. rewrite Hrun.
    rewrite Hk, decide_True by assumption. discriminate.
  - intros c this Hk. rewrite one_init_duplicate; [reflexivity|]. now rewrite Hk.
  - intros c this Hk. rewrite oneR_init_duplicate; [reflexivity|]. now rewrite Hk.
Qed.

(** ** Instances in programs that destroy only what they constructed *)

Lemma construct_one_free_failure (c : one_ctor_call) (s s' : store) (r : outcome one) :
  om_mtx s = Free ->
  construct_one (one_ctor c) s = (r, s') ->
  (forall h, r <> Ret h) ->
  om_mtx s' = Free /\ heap s' = heap s.
Proof.
  intros Hm. rewrite construct_one_run, Hm. cbv zeta.
  destruct (decide (one_ctor_key c ∈ om_list s)).
  { intros [= <- <-] _. now split. }
  unfold acquired. destruct (representable _); [|intros [= <- <-] _; now split].
  destruct (one_ctor_bind c _) as [o [s2 h2]] eqn:Hb.
  apply one_ctor_bind_frame in Hb as (_ & Hm2 & [->|(-> & -> & _)]); simpl.
  - intros [= <- <-] Hr. now destruct (Hr h2).
  - intros [= <- <-] _. now split.
Qed.

Lemma construct_oneR_free (c : oneR_ctor_call) (s : store) :
  om_mtx s = Free ->
  om_mtx (snd (construct_oneR (oneR_ctor c) s)) = Free
  /\ heap (snd (construct_oneR (oneR_ctor c) s)) = heap s.
Proof.
  intros Hm. unfold construct_oneR.
  destruct (T_ctor T_default) as [v|] eqn:Hv; [|now split].
  pose proof (construct_oneR_run c s v Hv) as Hrun. cbv zeta in Hrun.
  unfold construct_oneR in Hrun. rewrite Hv in Hrun. rewrite Hrun, Hm.
  destruct (decide (oneR_ctor_key c ∈ om_list s)); [now split|].
  unfold acquired. destruct (representable _); [|now split].
  destruct (oneR_ctor_bind c _) as [o [s2 h2]] eqn:Hb.
  apply oneR_ctor_bind_frame in Hb as (-> & _). now destruct o.
Qed.

Lemma live_instances_same_store (s s' : store) (live : list handle) :
  live_instances_allocated (s, live) ->
  om_mtx s' = Free -> heap s' = heap s ->
  live_instances_allocated (s', live).
Proof.
  intros (_ & Hnd & Hb & Hl) Hm Hh. unfold live_instances_allocated. simpl in *.
  rewrite Hh. now repeat split.
Qed.

Lemma live_instances_other (s s' : store) (live : list handle) (h : handle) :
  live_instances_allocated (s, live) ->
  owned_ptr h = None ->
  (forall h', h = HOne h' -> one_base h' <> indeterminate) ->
  om_mtx s' = Free -> heap s' = heap s ->
  live_instances_allocated (s', live ++ [h]).
Proof.
  intros (_ & Hnd & Hb & Hl) Ho Hbh Hm Hh. unfold live_instances_allocated. simpl in *.
  rewrite omap_app. simpl. rewrite Ho, app_nil_r, Hh.
  split; [exact Hm|]. split; [exact Hnd|]. split; [|exact Hl].
  intros h' Hh'. apply elem_of_app in Hh' as [Hh'|Hh']; [now apply Hb|].
  apply list_elem_of_singleton in Hh'. now apply Hbh.
Qed.

Lemma use_step_live_instances (u : use) (p : store * list handle) :
  live_instances_allocated p -> live_instances_allocated (use_step u p).
Proof.
  destruct p as [s live]. intros Hinv. destruct u as [c|c|i]; simpl.
  - destruct (construct_one (one_ctor c) s) as [r s'] eqn:Hc.
    destruct Hinv as (Hm & Hnd & Hb & Hl). simpl in *.
    destruct r as [h| |].
    + apply construct_one_success in Hc as (_ & _ & _ & _ & Hm1 & Ha).
      destruct (one_ctor_alloc c) as [ini|].
      * destruct Ha as (v & _ & Hbase & Hh & _).
        unfold live_instances_allocated. simpl.
        rewrite omap_app. simpl. rewrite Hbase. simpl.
        split; [exact Hm1|]. split; [|split].
        -- apply NoDup_app. split; [exact Hnd|]. split; [|apply NoDup_singleton].
           intros q Hq Hq'. apply list_elem_of_singleton in Hq'. subst q.
           apply Hl in Hq as [w Hw]. now rewrite fresh_not_allocated in Hw.
        -- intros h' Hh'. apply elem_of_app in Hh' as [Hh'|Hh']; [now apply Hb|].
           apply list_elem_of_singleton in Hh'. injection Hh' as ->.
           now rewrite Hbase.
        -- intros q Hq. rewrite Hh. apply lookup_insert_is_Some'.
           apply elem_of_app in Hq as [Hq|Hq]; [right; now apply Hl|].
           apply list_elem_of_singleton in Hq. now left.
      * destruct Ha as (d & Hbase & _ & Hh & _).
        apply live_instances_other with (s := s); try assumption.
        -- now repeat split.
        -- simpl. now rewrite Hbase.
        -- intros h' [= <-]. now rewrite Hbase.
    + destruct (construct_one_free_failure c s s' _ Hm Hc) as [Hm' Hh']; [discriminate|].
      apply live_instances_same_store with (s := s); try assumption. now repeat split.
    + destruct (construct_one_free_failure c s s' _ Hm Hc) as [Hm' Hh']; [discriminate|].
      apply live_instances_same_store with (s := s); try assumption. now repeat split.
  - pose proof Hinv as (Hm & _).
    destruct (construct_oneR_free c s Hm) as [Hm' Hh'].
    destruct (construct_oneR (oneR_ctor c) s) as [[r| |] s'] eqn:Hc; simpl in *.
    + apply live_instances_other with (s := s); try assumption; [reflexivity|discriminate].
    + now apply live_instances_same_store with (s := s).
    + now apply live_instances_same_store with (s := s).
  - destruct (live !! i) as [h|] eqn:Hi; [|exact Hinv].
    destruct Hinv as (Hm & Hnd & Hb & Hl). simpl in *.
    rewrite <- (take_drop_middle live i h Hi) in Hnd, Hb, Hl.
    rewrite omap_app in Hnd, Hl. simpl in Hnd, Hl.
    assert (Hsub : forall h', h' ∈ take i live ++ drop (S i) live ->
                              h' ∈ take i live ++ h :: drop (S i) live).
    { intros h' Hh'. apply elem_of_app in Hh' as [Hh'|Hh']; apply elem_of_app;
        [now left | right; now right]. }
    destruct h as [h|r].
    + assert (Hbh : one_base h <> indeterminate).
      { apply Hb. apply elem_of_app. right. left. }
      rewrite destroy_one_run, Hm. cbv zeta.
      destruct (one_base h) as [|[ptr|o]] eqn:Hbase; [congruence| |].
      * simpl in Hnd, Hl. rewrite Hbase in Hnd, Hl. simpl in Hnd, Hl.
        apply NoDup_app in Hnd as (Hnd1 & Hdis & Hnd2).
        apply NoDup_cons in Hnd2 as (Hp2 & Hnd2).
        destruct (Hl ptr) as [w Hw].
        { apply elem_of_app. right. left. }
        rewrite Hw. unfold live_instances_allocated. simpl.
        rewrite delete_take_drop, omap_app.
        split; [reflexivity|]. split; [|split].
        -- apply NoDup_app. split; [exact Hnd1|]. split; [|exact Hnd2].
           intros q Hq Hq'. apply (Hdis q Hq). now right.
        -- intros h' Hh'. now apply Hb, Hsub.
        -- intros q Hq.
           assert (Hne : ptr <> q).
           { intros <-. apply elem_of_app in Hq as [Hq|Hq]; [|contradiction].
             apply (Hdis ptr Hq). left. }
           rewrite lookup_delete_ne by assumption. apply Hl.
           apply elem_of_app in Hq as [Hq|Hq]; apply elem_of_app;
             [now left | right; now right].
      * simpl in Hnd, Hl. rewrite Hbase in Hnd, Hl. simpl in Hnd, Hl.
        unfold live_instances_allocated. simpl.
        rewrite delete_take_drop, omap_app.
        split; [reflexivity|]. split; [exact Hnd|]. split; [|exact Hl].
        intros h' Hh'. now apply Hb, Hsub.
    + rewrite destroy_oneR_run, Hm. simpl in Hnd, Hl.
      unfold live_instances_allocated. simpl.
      rewrite delete_take_drop, omap_app.
      split; [reflexivity|]. split; [exact Hnd|]. split; [|exact Hl].
      intros h' Hh'. now apply Hb, Hsub.
Qed.

Lemma use_run_live_instances (l : list use) (p : store * list handle) :
  live_instances_allocated p -> live_instances_allocated (use_run l p).
Proof.
  revert p. induction l as [|u l IH]; intros p Hp; simpl; [exact Hp|].
  apply IH, use_step_live_instances, Hp.
Qed.

(** In a program that, from program start, only constructs handles with
    keys and destroys handles it constructed, one operation after the
    other: [get()] of every live indirect handle returns an address, the
    instance of every live owning handle is still allocated at that
    address (nothing was deleted twice or too early), and the
    destructor of every live handle of either kind returns.  Nothing is
    stated about an instance a handle borrows. *)
Theorem constructed_handles_safe (l : list use) :
  let p := use_run l (initial, []) in
  (forall h, HOne h ∈ snd p ->
     (exists q, one_get h = Ret q
        /\ (owned_ptr (HOne h) = Some q -> is_Some (heap (fst p) !! q)))
     /\ fst (destroy_one h (fst p)) = Ret tt)
  /\ (forall r, HOneR r ∈ snd p -> fst (destroy_oneR r (fst p)) = Ret tt).
Proof.
  intros p.
  assert (Hinv : live_instances_allocated p).
  { apply use_run_live_instances. unfold live_instances_allocated. simpl.
    split; [reflexivity|]. split; [apply NoDup_nil_2|].
    split; intros x Hx; now apply elem_of_nil in Hx. }
  destruct Hinv as (Hm & _ & Hb & Hl). split.
  - intros h Hh. specialize (Hb h Hh).
    assert (Hown : forall q, owned_ptr (HOne h) = Some q -> is_Some (heap (fst p) !! q)).
    { intros q Hq. apply Hl, list_elem_of_omap. eauto. }
    rewrite destroy_one_run, Hm. cbv zeta. unfold one_get.
    simpl in Hown. cbn [owned_ptr].
    destruct (one_base h) as [|[ptr|o]]; [congruence| |]; simpl.
    + destruct (Hown ptr eq_refl) as [w Hw]. rewrite Hw. split; [|reflexivity].
      exists ptr. split; [reflexivity|]. intros _. eauto.
    + split; [|reflexivity]. exists o. split; [reflexivity|]. discriminate.
  - intros r _. rewrite destroy_oneR_run, Hm. reflexivity.
Qed.

(** ** What [init] binds *)

(** After [init] returned [true] the handle holds the key as two moves
    left it and is bound:
    [get()] gives a newly allocated instance holding the value the
    constructor of [T] built, or, for the borrowing [init], the caller's
    instance with nothing allocated. *)
Theorem get_after_init (c : one_init_call) (s s1 : store) (this h1 : one) :
  one_init c (s, this) = (Ret true, (s1, h1)) ->
  one_data h1 = moved_from (moved_from (one_init_key c))
  /\ match one_init_alloc c with
     | Some i =>
         exists p v, one_get h1 = Ret p /\ T_ctor i = Some v
           /\ heap s !! p = None /\ heap s1 !! p = Some v
     | None =>
         exists d t, c = InitPackage d (one_init_key c) t
           /\ one_get h1 = Ret d /\ heap s1 = heap s
     end.
Proof.
  intros Hi. apply one_init_success in Hi as (_ & Hd & _ & _ & Ha).
  split; [exact Hd|].
  destruct (one_init_alloc c) as [i|].
  - destruct Ha as (v & Hv & Hb & Hh).
    exists (fresh (dom (heap s))), v. unfold one_get. rewrite Hb, Hh. simpl.
    split; [reflexivity|]. split; [exact Hv|].
    split; [apply fresh_not_allocated | apply lookup_insert_eq].
  - destruct Ha as (d & Hb & Hh & t & Hc).
    exists d, t. unfold one_get. rewrite Hb. now repeat split.
Qed.

(** ** C5: an [init] whose value constructor throws *)

(** C5.  When the key is not claimed, the mutex can be obtained and the
    constructor of [T] throws for the forwarded arguments, [init] of
    either handle kind returns [false] having allocated nothing, and
    the entry its claim appended stays in the vector.  When moving
    leaves the key unchanged that entry is the key, so every further
    [init] with the key, on this or any handle, and whatever it would
    construct, returns [false] again. *)
Theorem C5_failed_init_leaves_entry (k : K) (t : milliseconds) (a : CArgs) (s : store) :
  k ∉ om_list s -> lock_within t (om_mtx s) = true ->
  T_ctor (T_from_args a) = None ->
  (forall this, exists s1 h1,
      one_init (InitArgs k t a) (s, this) = (Ret false, (s1, h1))
      /\ om_list s1 = om_list s ++ [moved_from k]
      /\ heap s1 = heap s /\ one_base h1 = one_base this
      /\ (moved_from k = k ->
          forall c this', one_init_key c = k ->
            fst (one_init c (s1, this')) = Ret false))
  /\ (forall this, exists s1 h1,
      oneR_init (RInitArgs t k a) (s, this) = (Ret false, (s1, h1))
      /\ om_list s1 = om_list s ++ [moved_from k]
      /\ heap s1 = heap s /\ oneR_obj h1 = oneR_obj this
      /\ (moved_from k = k ->
          forall c this', oneR_init_key c = k ->
            fst (oneR_init c (s1, this')) = Ret false)).
Proof.
  intros Hn Hl Ht. split; intros this.
  - rewrite (one_init_args_T_throws k t a s this Hn Hl Ht).
    do 2 eexists. split; [reflexivity|]. simpl.
    split; [reflexivity|]. split; [reflexivity|]. split; [reflexivity|].
    intros He c this' Hk. rewrite one_init_duplicate; [reflexivity|].
    rewrite Hk. simpl. rewrite He. apply elem_of_app. right. apply list_elem_of_here.
  - rewrite (oneR_init_args_T_throws k t a s this Hn Hl Ht).
    do 2 eexists. split; [reflexivity|]. simpl.
    split; [reflexivity|]. split; [reflexivity|]. split; [reflexivity|].
    intros He c this' Hk. rewrite oneR_init_duplicate; [reflexivity|].
    rewrite Hk. simpl. rewrite He. apply elem_of_app. right. apply list_elem_of_here.
Qed.

End OneH.

(** * Concrete runs, with the client's types *)

Import Client.

Local Abbreviation new_one c :=
  (construct_one default_key (one_ctor Connection_ctor moved_key c)).
Local Abbreviation new_oneR c :=
  (construct_oneR default_key Connection_ctor (oneR_ctor Connection_ctor moved_key c)).
Local Abbreviation init_one c := (one_init Connection_ctor moved_key c).
Local Abbreviation init_oneR c := (oneR_init Connection_ctor moved_key c).
Local Abbreviation start := (@initial Key Connection).
Local Abbreviation registry l m := (Store (K:=Key) (T:=Connection) l m ∅ []).
Local Abbreviation localhost := ("localhost"%string, 5432).
Local Abbreviation bad_port := ("localhost"%string, -1).
Local Abbreviation conn := {| host := "localhost"; port := 5432 |}.
Local Abbreviation no_conn := {| host := ""; port := 0 |}.
Local Abbreviation cache := ("cache"%string, 1).

(** The client that keys its connections by a number. *)
Local Abbreviation new_one_n c :=
  (construct_one 0 (one_ctor Connection_by_number moved_number c)).
Local Abbreviation init_one_n c := (one_init Connection_by_number moved_number c).
Local Abbreviation init_oneR_n c := (oneR_init Connection_by_number moved_number c).
Local Abbreviation start_n := (@initial Z Connection).

(** The scenario of the specification, with connections keyed by a
    number: A is built for key 7, a second construction with that key
    throws DuplicateKey, A is destroyed, and a third construction with
    the key succeeds. *)
Example end_to_end :
  exists a s1 s2 s3 c s4,
    new_one_n (OneArgs 7 100 localhost) start_n = (Ret a, s1)
    /\ heap s1 !! Base_get (retain 0%nat) = Some conn
    /\ new_one_n (OneArgs 7 100 localhost) s1 = (Throw DuplicateKey, s2)
    /\ destroy_one a s2 = (Ret tt, s3)
    /\ new_one_n (OneArgs 7 100 localhost) s3 = (Ret c, s4).
Proof.
  do 6 eexists.
  split; [run_it|]. split; [run_it|]. split; [run_it|]. split; [run_it|]. run_it.
Qed.

(** The default timeouts can be told apart: with the mutex held elsewhere
    for a minute, a [one] built without a timeout waits and succeeds, a
    [oneR] built without a timeout gives up after 5000 ms. *)
Example default_timeouts_differ :
  let busy := Store (K:=Key) (T:=Connection) [] (Held 60000) ∅ [] in
  fst (new_one (OneNotUse db None) busy)
    = Ret (One db_moved (points_to (retain 0%nat)))
  /\ fst (new_oneR (RNotUse db None) busy) = Throw LockTimeout.
Proof. split; vm_compute; reflexivity. Qed.

(** A timeout whose count of nanoseconds does not fit 64 bits has no
    defined wait: [try_lock_for] is given no meaning for it. *)
Example timeout_overflow :
  representable 9223372036854 = true
  /\ representable 9223372036855 = false
  /\ fst (try_lock_for 9223372036855 start) = Undefined.
Proof. split; [reflexivity|]. split; reflexivity. Qed.
(** ** C1: a second live handle for one key *)

(** C1, at a failing input.  A is an inline handle built for the
    value-initialised key.  B is default-constructed, its [init] for that
    key returns [false] (the key is claimed), and B is destroyed.  A
    construction C for the same key then returns a handle, while A was
    never destroyed: two live handles hold one key. *)
Theorem C1_second_live_handle_same_key :
  let a := OneR no_conn default_key in
  let b := OneR no_conn default_key in
  let c := OneR no_conn default_key in
  exists s1 s2 s3 s4,
    new_oneR (RNotUse default_key None) start = (Ret a, s1)
    /\ construct_oneR default_key Connection_ctor oneR_ctor_default s1 = (Ret b, s1)
    /\ init_oneR (RInitNotUse default_key None) (s1, b) = (Ret false, (s2, b))
    /\ destroy_oneR b s2 = (Ret tt, s3)
    /\ om_list s3 = []
    /\ new_oneR (RNotUse default_key None) s3 = (Ret c, s4)
    /\ oneR_data c = oneR_data a.
Proof.
  do 4 eexists.
  split; [run_it|]. split; [run_it|]. split; [run_it|]. split; [run_it|].
  split; [run_it|]. split; [run_it|]. reflexivity.
Qed.

(** ** C5: an [init] that returns [false] with the key left behind *)

(** ** C2: the claim registers the key as a move left it *)

(** C2, at a failing input.  On a fresh registry the claim for
    [("db", 1)] runs its four steps in the order stated, but what
    [add] appends and what the handle stores is not the key: the
    membership test has moved the key's string out, so the vector gets
    [("", 1)].  The key claimed is then not found, while the key nobody
    claimed is.  Both handle kinds behave so. *)
Theorem C2_entrust_registers_moved_from_key :
  let h := One default_key indeterminate in
  let r := OneR no_conn default_key in
  let s1 := Store [db_moved] Free ∅
              [EvVerified db; EvTryLockFor 100; EvAdd db_moved; EvUnlock] in
  one_entrust moved_key 100 db (start, h) = (Ret tt, (s1, One db_moved indeterminate))
  /\ oneR_entrust moved_key 100 db (start, r) = (Ret tt, (s1, OneR no_conn db_moved))
  /\ (db ∉ om_list s1)
  /\ fst (verified db s1) = Ret false
  /\ fst (verified db_moved s1) = Ret true.
Proof.
  split; [run_it|]. split; [run_it|]. split.
  - vm_compute. intros H. apply list_elem_of_singleton in H. discriminate.
  - split; run_it.
Qed.

(** ** C5: a failed [init] with a key that a move leaves unchanged *)

(** C5, at a failing input: connections keyed by a number, key 7, and
    arguments for which the constructor of the connection throws. *)
Lemma C5_failed_init_leaves_entry_witness :
  (7 ∉ om_list start_n)
  /\ lock_within 100 (om_mtx start_n) = true
  /\ Connection_by_number (T_from_args bad_port) = None
  /\ (exists s1 h1,
        init_one_n (InitArgs 7 100 bad_port) (start_n, One 0 indeterminate)
          = (Ret false, (s1, h1))
        /\ om_list s1 = [7] /\ heap s1 = ∅
        /\ forall c this', one_init_key c = 7 ->
             fst (init_one_n c (s1, this')) = Ret false)
  /\ (exists s1 r1,
        init_oneR_n (RInitArgs 100 7 bad_port) (start_n, OneR no_conn 0)
          = (Ret false, (s1, r1))
        /\ om_list s1 = [7]
        /\ forall c this', oneR_init_key c = 7 ->
             fst (init_oneR_n c (s1, this')) = Ret false).
Proof.
  assert (Hn : 7 ∉ om_list start_n) by apply not_elem_of_nil.
  assert (Hl : lock_within 100 (om_mtx start_n) = true) by reflexivity.
  assert (Ht : Connection_by_number (T_from_args bad_port) = None) by reflexivity.
  destruct (C5_failed_init_leaves_entry Connection_by_number moved_number
              7 100 bad_port start_n Hn Hl Ht) as [Hone HoneR].
  split; [exact Hn|]. split; [exact Hl|]. split; [exact Ht|]. split.
  - destruct (Hone (One 0 indeterminate)) as (s1 & h1 & Hrun & Hlist & Hheap & _ & Hretry).
    exists s1, h1. split; [exact Hrun|]. split; [exact Hlist|]. split; [exact Hheap|].
    exact (Hretry eq_refl).
  - destruct (HoneR (OneR no_conn 0)) as (s1 & r1 & Hrun & Hlist & _ & _ & Hretry).
    exists s1, r1. split; [exact Hrun|]. split; [exact Hlist|].
    exact (Hretry eq_refl).
Defined.

(** With the string-bearing key [("db", 1)] the entry left behind is
    [("", 1)]: the retry with [("db", 1)] is not refused, and when it
    succeeds the vector holds [("", 1)] twice. *)
Example failed_init_then_retry :
  exists s1 h1 s2 h2,
    init_one (InitArgs db 100 bad_port) (start, One default_key indeterminate)
      = (Ret false, (s1, h1))
    /\ om_list s1 = [db_moved]
    /\ init_one (InitArgs db 100 localhost) (s1, h1) = (Ret true, (s2, h2))
    /\ om_list s2 = [db_moved; db_moved].
Proof.
  do 4 eexists. split; [run_it|]. split; [run_it|]. split; [run_it|]. run_it.
Qed.

(** ** C7: equal entries in the vector *)

(** C7, at a failing input.  From program start two constructions with
    the different keys [("db", 1)] and [("cache", 1)] both return a
    handle, and the vector then holds [("", 1)] twice: each claim
    appended its key after the membership test had moved the string
    out. *)
Theorem C7_moved_from_keys_collide :
  let s1 := snd (new_one (OneNotUse db None) start) in
  let s2 := snd (new_one (OneNotUse cache None) s1) in
  (exists a, new_one (OneNotUse db None) start = (Ret a, s1))
  /\ (exists b, new_one (OneNotUse cache None) s1 = (Ret b, s2))
  /\ s2 = run default_key Connection_ctor moved_key
            [NewOne (OneNotUse db None); NewOne (OneNotUse cache None)] start
  /\ om_list s2 = [db_moved; db_moved]
  /\ ~ NoDup (om_list s2).
Proof.
  split; [eexists; run_it|]. split; [eexists; run_it|]. split; [run_it|].
  split; [run_it|].
  vm_compute. intros H. apply NoDup_cons in H as [H _].
  apply H, list_elem_of_here.
Qed.

(** C3 fails as stated: with the key at two places, [erase] removes
    both, while removal of the first match alone would keep the second. *)
Lemma C3_erase_is_not_remove_first :
  let l := [db; default_key; db] in
  om_list (snd (erase db (registry l Free))) = [default_key]
  /\ spec_remove_first db l = [default_key; db]
  /\ om_list (snd (erase db (registry l Free))) <> spec_remove_first db l.
Proof. split; [run_it|]. split; [run_it|]. vm_compute. discriminate. Qed.


Lemma C4_failed_claim_keeps_list_witness :
  (DuplicateKey = DuplicateKey \/ DuplicateKey = LockTimeout)
  /\ om_list (snd (new_one (OneCondition db None) (registry [db] Free))) = [db]
  /\ (exists s', init_one (InitNotUse db None) (registry [db] Free, One default_key indeterminate)
                 = (Ret false, (s', One default_key indeterminate))
                 /\ om_list s' = [db]).
Proof.
  assert (He : DuplicateKey = DuplicateKey \/ DuplicateKey = LockTimeout) by now left.
  destruct (C4_failed_claim_keeps_list default_key Connection_ctor moved_key
              (registry [db] Free) DuplicateKey He) as (_ & _ & Hc & _ & Hi & _).
  split; [exact He|]. split.
  - apply (Hc (OneCondition db None)). run_it.
  - eapply (Hi (InitNotUse db None)). run_it.
Defined.

(** C6 fails as stated: for the owning handle built for [("db", 1)], the
    destructor's log has the deletion of the instance before the unlock,
    not after it as the specification orders the steps. *)
Lemma C6_delete_precedes_unlock :
  let h := One db_moved (points_to (retain 0%nat)) in
  let s := snd (new_one (OneArgs db 100 localhost) start) in
  new_one (OneArgs db 100 localhost) start = (Ret h, s)
  /\ spec_dtor_steps h = [EvLock; EvErase db_moved; EvUnlock; EvDelete 0%nat]
  /\ trace (snd (destroy_one h s))
     = trace s ++ [EvLock; EvErase db_moved; EvDelete 0%nat; EvUnlock]
  /\ trace (snd (destroy_one h s)) <> trace s ++ spec_dtor_steps h.
Proof.
  split; [run_it|]. split; [run_it|]. split; [run_it|]. vm_compute. discriminate.
Qed.

(** C6, at the owning handle built for [("db", 1)]. *)
Lemma C6_destruction_steps_witness :
  let h := One db_moved (points_to (retain 0%nat)) in
  let s := snd (new_one (OneArgs db 100 localhost) start) in
  om_mtx s <> Owned
  /\ one_base h = points_to (retain 0%nat)
  /\ (forall p, retain 0%nat = retain p -> is_Some (heap s !! p))
  /\ destroy_one h s =
       (Ret tt,
        Store (std_remove db_moved (om_list s)) Free (delete 0%nat (heap s))
              (trace s ++ [EvLock; EvErase db_moved; EvDelete 0%nat; EvUnlock])).
Proof.
  intros h s.
  assert (Hm : om_mtx s <> Owned) by (vm_compute; discriminate).
  assert (Hb : one_base h = points_to (retain 0%nat)) by reflexivity.
  assert (Hl : forall p, retain 0%nat = retain p -> is_Some (heap s !! p)).
  { intros p [= <-]. exists conn. run_it. }
  split; [exact Hm|]. split; [exact Hb|]. split; [exact Hl|].
  exact (C6_destruction_steps h (retain 0%nat) s Hm Hb Hl).
Defined.

(** C8, at the scenario's construction. *)
Lemma C8_key_reusable_after_destruction_witness :
  let h := One db_moved (points_to (retain 0%nat)) in
  let s1 := snd (new_one (OneArgs db 100 localhost) start) in
  new_one (OneArgs db 100 localhost) start = (Ret h, s1)
  /\ exists s2, destroy_one h s1 = (Ret tt, s2)
       /\ (db ∉ om_list s2)
       /\ exists h' s3, new_one (OneArgs db 100 localhost) s2 = (Ret h', s3).
Proof.
  intros h s1.
  assert (Hc : new_one (OneArgs db 100 localhost) start = (Ret h, s1)) by run_it.
  split; [exact Hc|].
  destruct (C8_key_reusable_after_destruction default_key Connection_ctor moved_key start)
    as [Hone _].
  destruct (Hone (OneArgs db 100 localhost) h s1 Hc) as (s2 & Hd & Hn & _ & Hagain).
  exists s2. split; [exact Hd|]. split; [exact Hn|]. exact Hagain.
Defined.

(** C9, with the mutex held elsewhere for a minute: the [one]
    constructor called without a timeout claims the key, the [oneR]
    constructor called without a timeout throws LockTimeout after
    5000 ms. *)
Lemma C9_default_timeouts_witness :
  let busy := registry [] (Held 60000) in
  om_mtx busy = Held 60000
  /\ fst (new_one (OneNotUse db None) busy) <> Throw LockTimeout
  /\ om_list (snd (new_one (OneNotUse db None) busy)) = [db_moved]
  /\ new_oneR (RNotUse db None) busy =
       (Throw LockTimeout,
        Store [] (Held 55000) ∅ [EvVerified db; EvTryLockFor 5000]).
Proof.
  intros busy.
  assert (Hm : om_mtx busy = Held 60000) by reflexivity.
  destruct (C9_default_timeouts default_key Connection_ctor moved_key busy 60000 Hm)
    as (_ & _ & _ & _ & Hd).
  destruct Hd as [Hone HoneR]; [lia|].
  split; [exact Hm|].
  destruct (Hone (OneNotUse db None) eq_refl (not_elem_of_nil db)) as [Hne Hl].
  split; [exact Hne|]. split; [exact Hl|].
  exact (HoneR (RNotUse db None) no_conn eq_refl eq_refl (not_elem_of_nil db)).
Defined.

(** C10, with the value-initialised key claimed by a live handle. *)
Lemma C10_unbound_destruction_erases_witness :
  let s := registry [default_key; db] Free in
  om_mtx s <> Owned
  /\ destroy_oneR (OneR no_conn default_key) s =
       (Ret tt, Store [db] Free ∅ [EvLock; EvErase default_key; EvUnlock])
  /\ destroy_one (One default_key indeterminate) s =
       (Undefined, Store [db] Owned ∅ [EvLock; EvErase default_key]).
Proof.
  intros s.
  assert (Hm : om_mtx s <> Owned) by discriminate.
  destruct (C10_unbound_destruction_erases default_key Connection_ctor s no_conn Hm)
    as (_ & _ & HR & HO & _).
  split; [exact Hm|]. split; [exact HR | exact HO].
Defined.

(** ** Concrete runs for the further facts *)

(** [erase] of [("db", 1)] on a vector that holds another key only. *)
Lemma erase_absent_key_witness :
  (db ∉ om_list (registry [default_key] Free))
  /\ om_list (snd (erase db (registry [default_key] Free))) = [default_key]
  /\ om_list (snd (erase db (snd (erase db (registry [default_key] Free)))))
     = om_list (snd (erase db (registry [default_key] Free))).
Proof.
  assert (Hn : db ∉ om_list (registry [default_key] Free)).
  { apply not_elem_of_cons. split; [discriminate | apply not_elem_of_nil]. }
  split; [exact Hn|]. exact (erase_absent_key db (registry [default_key] Free) Hn).
Defined.

(** [add] then [erase] of [("db", 1)] on such a vector. *)
Lemma add_erase_round_trip_witness :
  (db ∉ om_list (registry [default_key] Free))
  /\ om_list (snd (erase db (snd (add db (registry [default_key] Free)))))
     = [default_key].
Proof.
  assert (Hn : db ∉ om_list (registry [default_key] Free)).
  { apply not_elem_of_cons. split; [discriminate | apply not_elem_of_nil]. }
  split; [exact Hn|]. exact (add_erase_round_trip db (registry [default_key] Free) Hn).
Defined.


(** The scenario's owning construction: [get()] reaches the connection
    built from [("localhost", 5432)]. *)
Lemma get_after_construction_witness :
  exists h s1,
    new_one (OneArgs db 100 localhost) start = (Ret h, s1)
    /\ exists p v, one_get h = Ret p
         /\ Connection_ctor (T_from_args localhost) = Some v
         /\ heap start !! p = None /\ heap s1 !! p = Some v
         /\ forall q, q <> p -> heap s1 !! q = heap start !! q.
Proof.
  do 2 eexists.
  assert (Hc : new_one (OneArgs db 100 localhost) start
               = (Ret (One db_moved (points_to (retain 0%nat))),
                  snd (new_one (OneArgs db 100 localhost) start))) by run_it.
  split; [exact Hc|].
  exact (get_after_construction default_key Connection_ctor moved_key
           (OneArgs db 100 localhost) start _ _ Hc).
Defined.

(** The constructor that builds the instance from the key builds it
    from the key as three moves left it: the connection's host is
    empty. *)
Example instance_from_moved_key :
  exists h s1,
    new_one (OneCondition db None) start = (Ret h, s1)
    /\ one_get h = Ret 0%nat
    /\ heap s1 !! 0%nat = Some {| host := ""; port := 1 |}.
Proof. do 2 eexists. split; [run_it|]. split; run_it. Qed.

(** The log of the scenario's owning construction. *)
Lemma construction_log_witness :
  exists h s1,
    new_one (OneArgs db 100 localhost) start = (Ret h, s1)
    /\ trace s1 = [EvVerified db; EvTryLockFor 100; EvAdd db_moved; EvUnlock;
                   EvNew 0%nat].
Proof.
  do 2 eexists.
  assert (Hc : new_one (OneArgs db 100 localhost) start
               = (Ret (One db_moved (points_to (retain 0%nat))),
                  snd (new_one (OneArgs db 100 localhost) start))) by run_it.
  split; [exact Hc|].
  exact (construction_log default_key Connection_ctor moved_key
           (OneArgs db 100 localhost) start _ _ Hc).
Defined.

(** A borrowing construction over the caller's instance at address 7,
    then the destruction: the caller's instance is still there. *)
Lemma construct_destroy_round_trip_witness :
  exists h s1,
    new_one (OnePackage 7%nat db None)
            (Store (K:=Key) [default_key] Free {[ 7%nat := conn ]} []) = (Ret h, s1)
    /\ exists s2, destroy_one h s1 = (Ret tt, s2)
         /\ om_list s2 = [default_key] /\ heap s2 = {[ 7%nat := conn ]}
         /\ om_mtx s2 = Free.
Proof.
  do 2 eexists.
  assert (Hc : new_one (OnePackage 7%nat db None)
                 (Store (K:=Key) [default_key] Free {[ 7%nat := conn ]} [])
               = (Ret (One db_moved (points_to (package 7%nat))),
                  snd (new_one (OnePackage 7%nat db None)
                         (Store (K:=Key) [default_key] Free {[ 7%nat := conn ]} []))))
    by run_it.
  split; [exact Hc|].
  destruct (construct_destroy_round_trip default_key Connection_ctor moved_key
              (OnePackage 7%nat db None) _ _ _ Hc) as (s2 & Hd & Hl & _ & Hh & Hm).
  exists s2. split; [exact Hd|]. split; [rewrite Hl; reflexivity|].
  split; [exact Hh | exact Hm].
Defined.

(** A construction whose connection refuses its port. *)
Lemma constructor_throw_strands_key_witness :
  exists s',
    new_one (OneArgs db 100 bad_port) start = (Throw T_exception, s')
    /\ om_list s' = [db_moved]
    /\ fst (new_one (OneArgs db_moved 100 localhost) s') = Throw DuplicateKey.
Proof.
  eexists.
  assert (Hc : new_one (OneArgs db 100 bad_port) start
               = (Throw T_exception, snd (new_one (OneArgs db 100 bad_port) start)))
    by run_it.
  split; [exact Hc|].
  destruct (constructor_throw_strands_key default_key Connection_ctor moved_key
              (OneArgs db 100 bad_port) start _ Hc) as (Hin & Hnew & _).
  split; [exact Hin|]. apply Hnew. reflexivity.
Defined.

(** A construction that times out while the mutex is held elsewhere. *)
Lemma mutex_never_left_owned_witness :
  om_mtx (registry [] (Held 250)) <> Owned
  /\ (forall this, NewOne (T:=Connection) (CArgs:=CtorArgs) (OneNotUse db (Some 100))
                    = DeleteOne this ->
        fst (destroy_one this (registry [] (Held 250))) = Ret tt)
  /\ om_mtx (step default_key Connection_ctor moved_key (NewOne (OneNotUse db (Some 100)))
               (registry [] (Held 250))) <> Owned.
Proof.
  assert (Hm : om_mtx (registry [] (Held 250)) <> Owned) by discriminate.
  assert (Hd : forall this, NewOne (T:=Connection) (CArgs:=CtorArgs)
                              (OneNotUse db (Some 100)) = DeleteOne this ->
                 fst (destroy_one this (registry [] (Held 250))) = Ret tt)
    by discriminate.
  split; [exact Hm|]. split; [exact Hd|].
  exact (mutex_never_left_owned default_key Connection_ctor moved_key _ _ Hm Hd).
Defined.

(** A handle initialised for [("db", 1)] and then for the
    value-initialised key, and destroyed. *)
Lemma reinit_strands_first_claim_witness :
  exists s1 h1 s2 h2,
    init_one (InitArgs db 100 localhost) (start, one_members default_key)
      = (Ret true, (s1, h1))
    /\ init_one (InitNotUse default_key None) (s1, h1) = (Ret true, (s2, h2))
    /\ exists s3, destroy_one h2 s2 = (Ret tt, s3)
         /\ heap s3 = heap s1
         /\ (exists p, one_get h1 = Ret p /\ is_Some (heap s3 !! p))
         /\ om_list s3 = om_list s1
         /\ db_moved ∈ om_list s3.
Proof.
  do 4 eexists.
  assert (H1 : init_one (InitArgs db 100 localhost) (start, one_members default_key)
               = (Ret true,
                  snd (init_one (InitArgs db 100 localhost)
                         (start, one_members default_key)))) by run_it.
  assert (H2 : init_one (InitNotUse default_key None)
                 (snd (init_one (InitArgs db 100 localhost)
                         (start, one_members default_key)))
               = (Ret true,
                  snd (init_one (InitNotUse default_key None)
                         (snd (init_one (InitArgs db 100 localhost)
                                 (start, one_members default_key)))))) by run_it.
  split; [exact H1|]. split; [exact H2|].
  destruct (reinit_strands_first_claim Connection_ctor moved_key _ _ _ _ _ _ _ _ H1 H2)
    as (s3 & Hd & Hh & Hp & Hl).
  exists s3. split; [exact Hd|]. split; [exact Hh|]. split; [exact Hp|].
  exact (Hl eq_refl).
Defined.

(** Destroying the handle of [("db", 1)] leaves the other key claimed. *)
Lemma other_keys_untouched_witness :
  action_entry moved_key
      (DeleteOne (T:=Connection) (CArgs:=CtorArgs) (One db_moved (points_to (package 7%nat))))
    <> Some default_key
  /\ (default_key ∈ om_list (step default_key Connection_ctor moved_key
                               (DeleteOne (One db_moved (points_to (package 7%nat))))
                               (registry [default_key; db_moved] Free))
      <-> default_key ∈ om_list (registry [default_key; db_moved] Free)).
Proof.
  assert (Hk : action_entry moved_key
                 (DeleteOne (T:=Connection) (CArgs:=CtorArgs)
                    (One db_moved (points_to (package 7%nat))))
               <> Some default_key) by discriminate.
  split; [exact Hk|].
  exact (other_keys_untouched default_key Connection_ctor moved_key _ _ _ Hk).
Defined.

(** An inline handle built from [("localhost", 5432)]. *)
Lemma oneR_holds_constructed_value_witness :
  exists r s1,
    new_oneR (RArgs 100 db localhost) start = (Ret r, s1)
    /\ oneR_data r = db_moved
    /\ Connection_ctor (T_from_args localhost) = Some (oneR_obj r).
Proof.
  do 2 eexists.
  assert (Hc : new_oneR (RArgs 100 db localhost) start
               = (Ret (OneR conn db_moved), snd (new_oneR (RArgs 100 db localhost) start)))
    by run_it.
  split; [exact Hc|].
  exact (oneR_holds_constructed_value default_key Connection_ctor moved_key _ _ _ _ Hc).
Defined.

(** A borrowing [init] over the caller's instance at address 7. *)
Lemma get_after_init_witness :
  exists s1 h1,
    init_one (InitPackage 7%nat db None) (start, one_members default_key)
      = (Ret true, (s1, h1))
    /\ one_data h1 = db_moved
    /\ exists d t, InitPackage (CArgs:=CtorArgs) 7%nat db None = InitPackage d db t
         /\ one_get h1 = Ret d /\ heap s1 = heap start.
Proof.
  do 2 eexists.
  assert (Hi : init_one (InitPackage 7%nat db None) (start, one_members default_key)
               = (Ret true,
                  snd (init_one (InitPackage 7%nat db None)
                         (start, one_members default_key)))) by run_it.
  split; [exact Hi|].
  exact (get_after_init Connection_ctor moved_key _ _ _ _ _ Hi).
Defined.

(** Connections keyed by a number: three constructions, two of them
    with the same key. *)
Lemma copied_keys_stay_unique_witness :
  (forall x, moved_number x = x)
  /\ NoDup (om_list (run 0 Connection_by_number moved_number
                       [NewOne (OneNotUse 7 None); NewOne (OneNotUse 7 None);
                        NewOne (OneNotUse 8 None)] start_n)).
Proof.
  assert (Hmove : forall x, moved_number x = x) by reflexivity.
  split; [exact Hmove|].
  exact (copied_keys_stay_unique 0 Connection_by_number moved_number _ Hmove).
Defined.

(** Connections keyed by a number: an indirect and an inline handle,
    both live. *)
Lemma constructed_handles_unique_witness :
  (forall x, moved_number x = x)
  /\ NoDup (handle_key <$>
            snd (use_run 0 Connection_by_number moved_number
                   [UseNewOne (OneNotUse 7 None); UseNewOneR (RNotUse 8 None)]
                   (start_n, []))).
Proof.
  assert (Hmove : forall x, moved_number x = x) by reflexivity.
  split; [exact Hmove|].
  exact (proj1 (constructed_handles_unique 0 Connection_by_number moved_number _ Hmove)).
Defined.
